(** * asignify: key containers (libasignify/databuf.c)

    A shallow embedding of the private-key line parser, the field registry,
    the sanity check, the key unpacker and the public container loader of
    [libasignify/databuf.c], with the properties of these functions.

    Conventions of the embedding.
    - A C [char] or [unsigned char] is a [Z] (its code, [0..255]); a buffer
      is a [list Z]; a pointer into a buffer is the suffix of the buffer that
      starts where it points, so [p ++] is the tail, [*p] the head and
      [p - c] a difference of lengths.  A pointer that may be [NULL] is an
      [option].
    - A computation that has no defined result in C (a [NULL] dereference, an
      access past the end of a buffer) yields [None] in the [option] monad.
    - Functions and constants that [databuf.c] uses and that live in other
      files ([hex2bin], [b64_pton_stop], [pkcs5_pbkdf2], [blake2b], the
      lengths and names of [asignify_internal.h]) are variables of the
      section [Databuf]. *)

From Stdlib Require Import String Ascii ZArith List Bool Lia.
Import ListNotations.

Local Open Scope Z_scope.

(** ** The C library, as far as [databuf.c] uses it *)

Module CLib.

(** The bytes of a string literal (without the terminating NUL). *)
Definition bytes (s : string) : list Z :=
  map (fun a => Z.of_N (N_of_ascii a)) (list_ascii_of_string s).

Definition NUL : Z := 0.
Definition LF : Z := 10.
Definition CR : Z := 13.
Definition COLON : Z := 58.

(** [<ctype.h>] in the C locale. *)
Definition isdigit (c : Z) : bool := (48 <=? c) && (c <=? 57).
Definition isgraph (c : Z) : bool := (33 <=? c) && (c <=? 126).
Definition isspace (c : Z) : bool := (c =? 32) || ((9 <=? c) && (c <=? 13)).

(** Equality of two byte lists. *)
Fixpoint bytes_eqb (a b : list Z) : bool :=
  match a, b with
  | [], [] => true
  | x :: a', y :: b' => (x =? y) && bytes_eqb a' b'
  | _, _ => false
  end.

(** [memcmp (a, b, n) == 0].  Both operands must hold [n] bytes; where one
    does not, C reads past it, and the model answers [false]. *)
Definition memcmp_eq (a b : list Z) (n : nat) : bool :=
  (n <=? length a)%nat && (n <=? length b)%nat &&
  bytes_eqb (firstn n a) (firstn n b).

(** [strncmp (s1, s2, n)]: the difference of the first bytes that differ
    among the first [n], [0] if there is none or a NUL is reached first.
    The end of a list reads as the terminating NUL. *)
Fixpoint strncmp (s1 s2 : list Z) (n : nat) : Z :=
  match n with
  | O => 0
  | S n' =>
      let c1 := hd NUL s1 in
      let c2 := hd NUL s2 in
      if negb (c1 =? c2) then c1 - c2
      else if c1 =? NUL then 0
      else strncmp (tl s1) (tl s2) n'
  end.

(** The C string held in a buffer: the bytes before the first NUL. *)
Fixpoint cstr (buf : list Z) : list Z :=
  match buf with
  | [] => []
  | c :: rest => if c =? NUL then [] else c :: cstr rest
  end.

(** [strcmp (a, b) == 0]. *)
Definition strcmp_eq (a b : list Z) : bool := bytes_eqb (cstr a) (cstr b).

(** [strchr (p, ch)] for [ch <> 0]: the suffix at the first [ch], [NULL] if
    there is none. *)
Fixpoint strchr (p : list Z) (ch : Z) : option (list Z) :=
  match p with
  | [] => None
  | c :: rest =>
      if c =? NUL then None
      else if c =? ch then Some p
      else strchr rest ch
  end.

(** [bsearch]: the classical loop over the half-open interval [[l, u)] of
    indices; [cmp] compares the key with a table entry.  Every iteration
    shrinks the interval, so [u - l] units of fuel are enough. *)
Fixpoint bsearch_loop {A : Type} (cmp : A -> Z) (base : list A)
    (fuel l u : nat) : option A :=
  match fuel with
  | O => None
  | S fuel' =>
      if (l <? u)%nat then
        let idx := ((l + u) / 2)%nat in
        match nth_error base idx with
        | None => None
        | Some e =>
            let comparison := cmp e in
            if comparison <? 0 then bsearch_loop cmp base fuel' l idx
            else if 0 <? comparison then bsearch_loop cmp base fuel' (S idx) u
            else Some e
        end
      else None
  end.

Definition bsearch {A : Type} (cmp : A -> Z) (base : list A) : option A :=
  bsearch_loop cmp base (length base) 0%nat (length base).

(** [strtoul (nptr, &endptr, 10)]: white space, an optional sign, decimal
    digits.  The result is the value, [endptr] and whether [errno] was set
    to [ERANGE].  Without a digit nothing is converted: the value is [0] and
    [endptr] is [nptr]. *)
Fixpoint skip_spaces (s : list Z) : list Z :=
  match s with
  | c :: rest => if isspace c then skip_spaces rest else s
  | [] => []
  end.

Fixpoint digits_value (acc : Z) (s : list Z) : Z * list Z :=
  match s with
  | c :: rest =>
      if isdigit c then digits_value (10 * acc + (c - 48)) rest else (acc, s)
  | [] => (acc, [])
  end.

Definition strtoul (ULONG_MAX : Z) (nptr : list Z) : Z * list Z * bool :=
  let s := skip_spaces nptr in
  let '(neg, s1) :=
    match s with
    | 45 :: t => (true, t)
    | 43 :: t => (false, t)
    | _ => (false, s)
    end in
  match s1 with
  | c :: _ =>
      if isdigit c then
        let '(v, rest) := digits_value 0 s1 in
        if ULONG_MAX <? v then (ULONG_MAX, rest, true)
        else ((if neg then (- v) mod (ULONG_MAX + 1) else v), rest, false)
      else (0, nptr, false)
  | [] => (0, nptr, false)
  end.

(** Conversion to [unsigned int]. *)
Definition to_uint (v : Z) : Z := v mod 2 ^ 32.

(** [explicit_memzero (buf, n)] and [memset (buf, 0, n)]. *)
Definition zeros (n : nat) : list Z := repeat 0 n.

Definition explicit_memzero (buf : list Z) (n : nat) : option (list Z) :=
  if (n <=? length buf)%nat then Some (zeros n ++ skipn n buf) else None.

(** The [n] bytes that [memcpy (dst, src, n)] reads from [src]. *)
Definition read_bytes (src : option (list Z)) (n : nat) : option (list Z) :=
  match src with
  | Some b => if (n <=? length b)%nat then Some (firstn n b) else None
  | None => None
  end.

(** [dst] after [n] bytes of [src] were copied to its start. *)
Definition memcpy_into (dst src : list Z) (n : nat) : list Z :=
  firstn n src ++ skipn n dst.

(** [buf[i] = v]. *)
Fixpoint poke (buf : list Z) (i : nat) (v : Z) : list Z :=
  match buf, i with
  | [], _ => []
  | _ :: rest, O => v :: rest
  | c :: rest, S i' => c :: poke rest i' v
  end.

End CLib.

Import CLib.

(** ** Data model *)

(** [enum asignify_privkey_field]. *)
Inductive asignify_privkey_field : Type :=
  | PRIVKEY_FIELD_STRING
  | PRIVKEY_FIELD_UINT
  | PRIVKEY_FIELD_HEX.

(** The members of [struct asignify_private_key] that the field table names
    through [STRUCT_OFFSET]. *)
Inductive member : Type :=
  | OFFSET_checksum
  | OFFSET_encrypted_blob
  | OFFSET_id
  | OFFSET_pbkdf_alg
  | OFFSET_rounds
  | OFFSET_salt.

(** [struct asignify_privkey_parser]. *)
Record asignify_privkey_parser : Type := {
  field_name : list Z;
  field_type : asignify_privkey_field;
  struct_offset : member;
  required_len : nat
}.

(** [struct asignify_private_key]: the members [databuf.c] reads and
    writes.  A pointer member holds the content of the buffer it points to,
    [None] for [NULL]. *)
Record asignify_private_key : Type := {
  version : Z;
  pbkdf_alg : option (list Z);
  rounds : Z;
  salt : option (list Z);
  id : option (list Z);
  encrypted_blob : option (list Z);
  checksum : option (list Z)
}.

(** The record after [memset (&privk, 0, sizeof (privk))]. *)
Definition zero_key : asignify_private_key :=
  {| version := 0; pbkdf_alg := None; rounds := 0; salt := None; id := None;
     encrypted_blob := None; checksum := None |}.

(** [struct asignify_private_data]. *)
Record asignify_private_data : Type := {
  priv_data : list Z;
  priv_data_len : nat;
  priv_id : list Z;
  priv_id_len : nat
}.

(** [struct asignify_public_data]. *)
Record asignify_public_data : Type := {
  pub_version : Z;
  pub_data : list Z;
  pub_data_len : nat;
  pub_id : list Z;
  pub_id_len : nat
}.

(** [*STRUCT_MEMBER_PTR (char *, privk, offset) = v] and the same for
    [unsigned char *]: a pointer is written to a pointer member.  No entry
    of the field table pairs a pointer kind with [rounds]. *)
Definition store_ptr (m : member) (v : option (list Z))
    (privk : asignify_private_key) : asignify_private_key :=
  match m with
  | OFFSET_checksum =>
      {| version := version privk; pbkdf_alg := pbkdf_alg privk;
         rounds := rounds privk; salt := salt privk; id := id privk;
         encrypted_blob := encrypted_blob privk; checksum := v |}
  | OFFSET_encrypted_blob =>
      {| version := version privk; pbkdf_alg := pbkdf_alg privk;
         rounds := rounds privk; salt := salt privk; id := id privk;
         encrypted_blob := v; checksum := checksum privk |}
  | OFFSET_id =>
      {| version := version privk; pbkdf_alg := pbkdf_alg privk;
         rounds := rounds privk; salt := salt privk; id := v;
         encrypted_blob := encrypted_blob privk; checksum := checksum privk |}
  | OFFSET_pbkdf_alg =>
      {| version := version privk; pbkdf_alg := v;
         rounds := rounds privk; salt := salt privk; id := id privk;
         encrypted_blob := encrypted_blob privk; checksum := checksum privk |}
  | OFFSET_salt =>
      {| version := version privk; pbkdf_alg := pbkdf_alg privk;
         rounds := rounds privk; salt := v; id := id privk;
         encrypted_blob := encrypted_blob privk; checksum := checksum privk |}
  | OFFSET_rounds => privk
  end.

(** [*STRUCT_MEMBER_PTR (unsigned int, privk, offset) = v]. *)
Definition store_uint (m : member) (v : Z)
    (privk : asignify_private_key) : asignify_private_key :=
  match m with
  | OFFSET_rounds =>
      {| version := version privk; pbkdf_alg := pbkdf_alg privk;
         rounds := v; salt := salt privk; id := id privk;
         encrypted_blob := encrypted_blob privk; checksum := checksum privk |}
  | _ => privk
  end.

(** The states of the line parser. *)
Inductive parse_state : Type :=
  | PARSE_NAME
  | PARSE_SEMICOLON
  | PARSE_VALUE
  | PARSE_SPACES
  | PARSE_ERROR.

Definition parse_state_eqb (a b : parse_state) : bool :=
  match a, b with
  | PARSE_NAME, PARSE_NAME => true
  | PARSE_SEMICOLON, PARSE_SEMICOLON => true
  | PARSE_VALUE, PARSE_VALUE => true
  | PARSE_SPACES, PARSE_SPACES => true
  | PARSE_ERROR, PARSE_ERROR => true
  | _, _ => false
  end.

(** The local variables of [asignify_private_data_parse_line] together with
    the record it fills.  [lp] and [lc] are the pointers [p] and [c]. *)
Record line_vars : Type := {
  lp : list Z;
  lc : list Z;
  state : parse_state;
  next_state : parse_state;
  parser : option asignify_privkey_parser;
  line_privk : asignify_private_key
}.

(** The return sites of [asignify_private_data_unpack_key], in the order
    of the source. *)
Inductive exit_path : Type :=
  | EXIT_NO_CALLBACK
  | EXIT_CANARY
  | EXIT_DERIVATION
  | EXIT_CHECKSUM
  | EXIT_UNPACKED
  | EXIT_PLAIN.

(** What [asignify_private_data_unpack_key] leaves behind when it returns:
    the value returned, the caller's record, the buffers of the record as
    they were when [free] received them, and the arrays [password] and
    [xorkey] of its frame. *)
Record unpack_out : Type := {
  out_priv : option asignify_private_data;
  out_privk : asignify_private_key;
  out_released : asignify_private_key;
  out_password : list Z;
  out_xorkey : list Z;
  out_path : exit_path
}.

(** A password callback: from the buffer it is handed and the length it is
    told, the buffer as it leaves it and the [int] it returns. *)
Definition asignify_password_cb : Type := list Z -> nat -> list Z * Z.

(** Byte-wise exclusive or: how a secret is wrapped with a derived key
    before it is written to a key file. *)
Fixpoint xor_bytes (a b : list Z) : list Z :=
  match a, b with
  | x :: a', y :: b' => Z.lxor x y :: xor_bytes a' b'
  | _, _ => []
  end.

(** ** Stand-ins for the collaborators

    The theorems of the section [Databuf] hold for every decoder, key
    derivation and digest.  The definitions of this module serve to run the
    functions on concrete inputs; the hex decoder is the one the
    specification describes, and the rejection of hex values of a wrong
    length is settled against it. *)

Module Sample.

Definition hex_digit (c : Z) : option Z :=
  if isdigit c then Some (c - 48)
  else if (97 <=? c) && (c <=? 102) then Some (c - 87)
  else if (65 <=? c) && (c <=? 70) then Some (c - 55)
  else None.

(** Modelled from the spec: [hex2bin] (its file is not under src/), the
    decoding of hex to binary of which "any decode failure (odd length ...,
    invalid hex digit) is an error".  It decodes the [hex_len] characters it
    is given, two hex digits to a byte, and fails on a character that is
    not a hex digit, on a last digit without its pair, and when the bytes do
    not fit in [bin_maxlen].  [out] are the bytes written so far, [pending]
    the high nibble of a started byte. *)
Fixpoint hex2bin_loop (bin_maxlen : nat) (hex out : list Z)
    (pending : option Z) : option (list Z) :=
  match hex with
  | [] =>
      match pending with
      | None => Some out
      | Some _ => None
      end
  | c :: rest =>
      match hex_digit c with
      | None => None
      | Some v =>
          if (bin_maxlen <=? length out)%nat then None
          else match pending with
               | None => hex2bin_loop bin_maxlen rest out (Some (16 * v))
               | Some hi => hex2bin_loop bin_maxlen rest (out ++ [hi + v]) None
               end
      end
  end.

Definition hex2bin (bin_maxlen : nat) (hex : list Z) : option (list Z) :=
  hex2bin_loop bin_maxlen hex [] None.

Definition b64_value (c : Z) : option Z :=
  if (65 <=? c) && (c <=? 90) then Some (c - 65)
  else if (97 <=? c) && (c <=? 122) then Some (c - 71)
  else if isdigit c then Some (c + 4)
  else if c =? 43 then Some 62
  else if c =? 47 then Some 63
  else None.

(** The 6-bit values of the base64 characters of [src] up to its end, a
    NUL, a padding [=] or a character of [stop]. *)
Fixpoint b64_sextets (src stop : list Z) : option (list Z) :=
  match src with
  | [] => Some []
  | c :: rest =>
      if (c =? NUL) || (c =? 61) || existsb (Z.eqb c) stop then Some []
      else match b64_value c with
           | None => None
           | Some v =>
               match b64_sextets rest stop with
               | None => None
               | Some t => Some (v :: t)
               end
           end
  end.

Fixpoint b64_bytes (sx : list Z) : option (list Z) :=
  match sx with
  | [] => Some []
  | [_] => None
  | [a; b] => Some [a * 4 + b / 16]
  | [a; b; c] => Some [a * 4 + b / 16; (b mod 16) * 16 + c / 4]
  | a :: b :: c :: d :: rest =>
      match b64_bytes rest with
      | None => None
      | Some t =>
          Some (a * 4 + b / 16 :: (b mod 16) * 16 + c / 4
                :: (c mod 4) * 64 + d :: t)
      end
  end.

(** Modelled from the spec: [b64_pton_stop] (its file is not under src/), a
    base64 decoder "with stop at delimiter semantics": it decodes [src] up
    to the first character of [stop] and fails on a character outside the
    alphabet or when the bytes do not fit in [targsize]. *)
Definition b64_pton_stop (src : list Z) (targsize : nat) (stop : list Z)
    : option (list Z) :=
  match b64_sextets src stop with
  | None => None
  | Some sx =>
      match b64_bytes sx with
      | None => None
      | Some bs => if (length bs <=? targsize)%nat then Some bs else None
      end
  end.

(** A rolling hash of a byte string. *)
Definition mix (l : list Z) : Z :=
  fold_left (fun h b => (h * 31 + b + 1) mod 65521) l 7.

(** A key derivation for concrete runs: [key_len] bytes that depend on the
    password, the salt and the number of rounds; it fails without rounds. *)
Definition pkcs5_pbkdf2 (pass salt : list Z) (key_len : nat) (rounds : Z)
    : option (list Z) :=
  if rounds <? 1 then None
  else Some (map (fun i => (mix (pass ++ salt) * (Z.of_nat i + 1) + rounds)
                           mod 256) (seq 0 key_len)).

(** A digest for concrete runs: [outlen] bytes that depend on the input. *)
Definition blake2b (input key : list Z) (outlen : nat) : list Z :=
  map (fun i => (mix (key ++ input) * (Z.of_nat i + 3)) mod 251)
      (seq 0 outlen).

(** Password callbacks: one that writes [pw], one that declines, one that
    fills the whole array and so runs over the canary. *)
Definition cb_writes (pw : list Z) : asignify_password_cb :=
  fun buf _ => (memcpy_into buf pw (length pw), Z.of_nat (length pw)).

Definition cb_declines : asignify_password_cb := fun buf _ => (buf, -1).

Definition cb_overruns : asignify_password_cb :=
  fun buf len => (repeat 65 (length buf), Z.of_nat len).

(** Memory that was never written reads as [170] in the concrete runs. *)
Definition junk (_ : nat) : Z := 170.

Definition PBKDF_ALG : list Z := bytes "pbkdf2-blake2".
Definition PRIVKEY_MAGIC : list Z := bytes "asignify-private-key".
Definition ULONG_MAX : Z := 2 ^ 64 - 1.

(** A secret of 64 bytes, wrapped under a password. *)
Definition secret : list Z := map Z.of_nat (seq 1 64).
Definition key_salt : list Z := map Z.of_nat (seq 100 16).
Definition key_id : list Z := [1; 2; 3; 4; 5; 6; 7; 8].
Definition pass : list Z := bytes "correct horse".

Definition derived_key : list Z :=
  match pkcs5_pbkdf2 pass key_salt 64 10000 with
  | Some k => k
  | None => []
  end.

Definition wrapped_key : asignify_private_key :=
  {| version := 1;
     pbkdf_alg := Some (PBKDF_ALG ++ [NUL]);
     rounds := 10000;
     salt := Some key_salt;
     id := Some key_id;
     encrypted_blob := Some (xor_bytes secret derived_key);
     checksum := Some (blake2b secret [] 64) |}.

Definition plain_key : asignify_private_key :=
  {| version := 1; pbkdf_alg := None; rounds := 0; salt := None;
     id := Some key_id; encrypted_blob := Some secret; checksum := None |}.

(** The frame of the unpacker before it runs, and the bytes of the random
    source. *)
Definition canary : list Z := [3; 1; 4; 1; 5; 9; 2; 6; 5; 3].
Definition stack_password : list Z := repeat 170 1024.
Definition stack_xorkey : list Z := repeat 85 64.

(** What [getline] leaves in its buffer for a line: the line, a NUL and the
    rest of the allocation. *)
Definition getline_buffer (line : list Z) (capacity : nat) : list Z :=
  line ++ NUL :: repeat 170 (capacity - length line - 1).

(** An unencrypted key file: the magic line, the id and the data. *)
Definition plain_key_file : list (list Z) :=
  [ getline_buffer (PRIVKEY_MAGIC ++ [LF]) 120;
    getline_buffer (bytes "id: 0102030405060708" ++ [LF]) 120;
    getline_buffer
      (bytes "data: " ++ concat (repeat (bytes "0123456789abcdef") 8) ++ [LF])
      240 ].

End Sample.

(** Sequencing of computations that may have no defined result. *)
Notation "x <- e ;; k" := (match e with Some x => k | None => None end)
  (at level 61, e at next level, right associativity, only parsing).

(** ** The functions of [databuf.c] *)

Section Databuf.

Set Default Proof Using "Type".

(** Lengths and names of [blake2.h], [tweetnacl.h] and
    [asignify_internal.h]. *)
Variable BLAKE2B_OUTBYTES : nat.
Variable crypto_sign_SECRETKEYBYTES : nat.
Variable KEY_ID_LEN : nat.
Variable SALT_LEN : nat.
Variable PBKDF_ALG : list Z.
Variable PBKDF_MINROUNDS : Z.
Variable PRIVKEY_MAGIC : list Z.

(** The largest [unsigned long] of the platform. *)
Variable ULONG_MAX : Z.

(** The byte found at each offset of a block that [xmalloc] returns. *)
Variable junk : nat -> Z.

(** [hex2bin (bin, bin_maxlen, hex, hex_len, NULL, NULL)]: [None] for [-1],
    else the bytes written to [bin]. *)
Variable hex2bin : nat -> list Z -> option (list Z).

(** [b64_pton_stop (src, target, targsize, stop)]: [None] for a failure,
    else the bytes written to [target]; their number is the result. *)
Variable b64_pton_stop : list Z -> nat -> list Z -> option (list Z).

(** [pkcs5_pbkdf2 (pass, pass_len, salt, salt_len, key, key_len, rounds)]:
    [None] for [-1], which leaves [key] as it was, else the bytes written
    to [key]. *)
Variable pkcs5_pbkdf2 : list Z -> list Z -> nat -> Z -> option (list Z).

(** [blake2b (out, in, key, outlen, inlen, keylen)]: the bytes written to
    [out]. *)
Variable blake2b : list Z -> list Z -> nat -> list Z.

Definition xmalloc (n : nat) : list Z := map junk (seq 0 n).

(** Keep sorted by field name. *)
Definition parser_fields : list asignify_privkey_parser :=
  [ {| field_name := bytes "checksum";
       field_type := PRIVKEY_FIELD_HEX;
       struct_offset := OFFSET_checksum;
       required_len := BLAKE2B_OUTBYTES |};
    {| field_name := bytes "data";
       field_type := PRIVKEY_FIELD_HEX;
       struct_offset := OFFSET_encrypted_blob;
       required_len := crypto_sign_SECRETKEYBYTES |};
    {| field_name := bytes "id";
       field_type := PRIVKEY_FIELD_HEX;
       struct_offset := OFFSET_id;
       required_len := KEY_ID_LEN |};
    {| field_name := bytes "kdf";
       field_type := PRIVKEY_FIELD_STRING;
       struct_offset := OFFSET_pbkdf_alg;
       required_len := 0 |};
    {| field_name := bytes "rounds";
       field_type := PRIVKEY_FIELD_UINT;
       struct_offset := OFFSET_rounds;
       required_len := 0 |};
    {| field_name := bytes "salt";
       field_type := PRIVKEY_FIELD_HEX;
       struct_offset := OFFSET_salt;
       required_len := SALT_LEN |} ].

(** [struct field_search_key] is the pair of [key_begin] and [key_len]. *)
Definition asignify_parser_fields_cmp (key_begin : list Z) (key_len : nat)
    (st : asignify_privkey_parser) : Z :=
  strncmp key_begin (field_name st) key_len.

(** [val] is the pointer into the line where the value starts. *)
Definition asignify_private_data_parse_value (val : list Z) (len : nat)
    (parser : asignify_privkey_parser) (privk : asignify_private_key)
    : bool * asignify_private_key :=
  match field_type parser with
  | PRIVKEY_FIELD_STRING =>
      let dests := xmalloc (len + 1) in
      let dests := memcpy_into dests val len in
      let dests := poke dests 0 NUL in
      (true, store_ptr (struct_offset parser) (Some dests) privk)
  | PRIVKEY_FIELD_HEX =>
      if negb (len / 2 =? required_len parser)%nat then (false, privk)
      else
        let desth := xmalloc (len / 2) in
        match hex2bin (len / 2) (firstn len val) with
        | None => (false, store_ptr (struct_offset parser) None privk)
        | Some written =>
            (true,
             store_ptr (struct_offset parser)
               (Some (memcpy_into desth written (length written))) privk)
        end
  | PRIVKEY_FIELD_UINT =>
      let '(v, _, erange) := strtoul ULONG_MAX val in
      (negb erange, store_uint (struct_offset parser) (to_uint v) privk)
  end.

Definition is_uint (f : asignify_privkey_parser) : bool :=
  match field_type f with
  | PRIVKEY_FIELD_UINT => true
  | _ => false
  end.

(** [p - c]. *)
Definition token_len (v : line_vars) : nat :=
  (length (lc v) - length (lp v))%nat.

Definition line_update (v : line_vars) (p : list Z) (s : parse_state)
    : line_vars :=
  {| lp := p; lc := lc v; state := s; next_state := next_state v;
     parser := parser v; line_privk := line_privk v |}.

(** One turn of the [while (p < end)] loop, with [*p = ch] and [rest] what
    follows: the variables after the turn, or the value returned. *)
Definition parse_line_step (ch : Z) (rest : list Z) (v : line_vars)
    : line_vars + bool :=
  match state v with
  | PARSE_NAME =>
      if ch =? COLON then
        if (0 <? token_len v)%nat then
          let found :=
            bsearch (asignify_parser_fields_cmp (lc v) (token_len v))
                    parser_fields in
          inl {| lp := lp v; lc := lc v;
                 state := match found with
                          | None => PARSE_ERROR
                          | Some _ => PARSE_SEMICOLON
                          end;
                 next_state := next_state v; parser := found;
                 line_privk := line_privk v |}
        else inl (line_update v (lp v) PARSE_ERROR)
      else if negb (isgraph ch) then inl (line_update v (lp v) PARSE_ERROR)
      else inl (line_update v rest (state v))
  | PARSE_SEMICOLON =>
      if ch =? COLON then
        inl {| lp := rest; lc := lc v; state := PARSE_SPACES;
               next_state := PARSE_VALUE; parser := parser v;
               line_privk := line_privk v |}
      else inl (line_update v (lp v) PARSE_ERROR)
  | PARSE_VALUE =>
      match parser v with
      | None => inl (line_update v (lp v) PARSE_ERROR)
      | Some f =>
          if is_uint f && negb (isdigit ch) then
            inl (line_update v (lp v) PARSE_ERROR)
          else if ch =? LF then
            let '(ok, privk) :=
              asignify_private_data_parse_value (lc v) (token_len v) f
                (line_privk v) in
            if ok then
              inl {| lp := lp v; lc := lc v; state := PARSE_SPACES;
                     next_state := PARSE_NAME; parser := parser v;
                     line_privk := privk |}
            else
              inl {| lp := lp v; lc := lc v; state := PARSE_ERROR;
                     next_state := next_state v; parser := parser v;
                     line_privk := privk |}
          else inl (line_update v rest (state v))
      end
  | PARSE_SPACES =>
      if isspace ch then inl (line_update v rest (state v))
      else
        inl {| lp := lp v; lc := lp v; state := next_state v;
               next_state := next_state v; parser := None;
               line_privk := line_privk v |}
  | PARSE_ERROR => inr false
  end.

(** The loop; [None] when the fuel runs out before the loop ends. *)
Fixpoint parse_line_loop (fuel : nat) (v : line_vars)
    : option (bool * asignify_private_key) :=
  match fuel with
  | O => None
  | S fuel' =>
      match lp v with
      | [] => Some (parse_state_eqb (state v) PARSE_SPACES, line_privk v)
      | ch :: rest =>
          match parse_line_step ch rest v with
          | inr b => Some (b, line_privk v)
          | inl v' => parse_line_loop fuel' v'
          end
      end
  end.

Definition parse_line_start (buf : list Z) (privk : asignify_private_key)
    : line_vars :=
  {| lp := buf; lc := buf; state := PARSE_NAME; next_state := PARSE_NAME;
     parser := None; line_privk := privk |}.

(** [buf] holds the [buflen] bytes the function is given.  The result is
    the value returned and the record as the function leaves it. *)
Definition asignify_private_data_parse_line (buf : list Z)
    (privk : asignify_private_key) : option (bool * asignify_private_key) :=
  parse_line_loop (4 * length buf + 4) (parse_line_start buf privk).

Definition is_set (p : option (list Z)) : bool :=
  match p with
  | Some _ => true
  | None => false
  end.

Definition asignify_private_key_is_sane (privk : asignify_private_key)
    : bool :=
  if match pbkdf_alg privk with
     | Some alg => strcmp_eq alg PBKDF_ALG
     | None => false
     end
  then
    if PBKDF_MINROUNDS <=? rounds privk then
      if is_set (salt privk) then
        if version privk =? 1 then
          if is_set (id privk) && is_set (encrypted_blob privk)
             && is_set (checksum privk)
          then true else false
        else false
      else false
    else false
  else
    (* Unencrypted key *)
    if version privk =? 1 then
      if is_set (id privk) && is_set (encrypted_blob privk)
      then true else false
    else false.

(** The record with the blob buffer holding [blob]. *)
Definition with_blob (privk : asignify_private_key) (blob : list Z)
    : asignify_private_key :=
  store_ptr OFFSET_encrypted_blob (Some blob) privk.

(** The record as the function leaves it, and its buffers as [free]
    receives them. *)
Definition asignify_privkey_cleanup (privk : asignify_private_key)
    : option (asignify_private_key * asignify_private_key) :=
  match encrypted_blob privk with
  | Some blob =>
      wiped <- explicit_memzero blob crypto_sign_SECRETKEYBYTES ;;
      Some (zero_key, with_blob privk wiped)
  | None => Some (zero_key, privk)
  end.

(** [for (r = 0; r < sizeof (xorkey); r ++) blob[r] ^= xorkey[r]], with [n]
    turns left. *)
Fixpoint xor_loop (n r : nat) (blob xorkey : list Z) : option (list Z) :=
  match n with
  | O => Some blob
  | S n' =>
      b <- nth_error blob r ;;
      k <- nth_error xorkey r ;;
      xor_loop n' (S r) (poke blob r (Z.lxor b k)) xorkey
  end.

(** [asignify_privkey_cleanup (privk); return (ret)]. *)
Definition cleanup_and_return (ret : option asignify_private_data)
    (privk : asignify_private_key) (password xorkey : list Z)
    (path : exit_path) : option unpack_out :=
  match asignify_privkey_cleanup privk with
  | Some (after, released) =>
      Some {| out_priv := ret; out_privk := after; out_released := released;
              out_password := password; out_xorkey := xorkey;
              out_path := path |}
  | None => None
  end.

(** The copy of the blob and of the id into a new [asignify_private_data],
    with the blob zeroed after the copy. *)
Definition copy_out (privk : asignify_private_key) (blob : list Z)
    (password xorkey : list Z) (path : exit_path) : option unpack_out :=
  data <- read_bytes (Some blob) crypto_sign_SECRETKEYBYTES ;;
  wiped <- explicit_memzero blob crypto_sign_SECRETKEYBYTES ;;
  key_id <- read_bytes (id privk) KEY_ID_LEN ;;
  cleanup_and_return
    (Some {| priv_data := data; priv_data_len := crypto_sign_SECRETKEYBYTES;
             priv_id := key_id; priv_id_len := KEY_ID_LEN |})
    (with_blob privk wiped) password xorkey path.

(** [canary] are the bytes [randombytes] delivers; [password] and [xorkey]
    are the arrays of the frame as the function finds them, of [1024] and
    [crypto_sign_SECRETKEYBYTES] bytes. *)
Definition asignify_private_data_unpack_key (privk : asignify_private_key)
    (password_cb : option asignify_password_cb)
    (canary password xorkey : list Z) : option unpack_out :=
  if negb ((length canary =? 10)%nat && (length password =? 1024)%nat
           && (length xorkey =? crypto_sign_SECRETKEYBYTES)%nat)
  then None
  else
  match pbkdf_alg privk with
  | Some _ =>
      (* We need to derive key *)
      match password_cb with
      | None =>
          cleanup_and_return None privk password xorkey EXIT_NO_CALLBACK
      | Some cb =>
          (* Some buffer overflow protection *)
          let password := firstn (1024 - 10) password ++ canary in
          let '(password, r) := cb password (1024 - 10)%nat in
          if negb (length password =? 1024)%nat then None
          else if (r <=? 0) || (1024 - 10 <? r)
                  || negb (bytes_eqb (skipn (1024 - 10) password) canary)
          then
            password <- explicit_memzero password 1024 ;;
            cleanup_and_return None privk password xorkey EXIT_CANARY
          else
            key_salt <- read_bytes (salt privk) SALT_LEN ;;
            match pkcs5_pbkdf2 (firstn (Z.to_nat r) password) key_salt
                    crypto_sign_SECRETKEYBYTES (rounds privk) with
            | None =>
                password <- explicit_memzero password 1024 ;;
                cleanup_and_return None privk password xorkey
                  EXIT_DERIVATION
            | Some xorkey =>
                if negb (length xorkey =? crypto_sign_SECRETKEYBYTES)%nat
                then None
                else
                  password <- explicit_memzero password 1024 ;;
                  blob <- encrypted_blob privk ;;
                  blob <- xor_loop crypto_sign_SECRETKEYBYTES 0 blob xorkey ;;
                  xorkey <- explicit_memzero xorkey
                              crypto_sign_SECRETKEYBYTES ;;
                  let res_checksum :=
                    blake2b (firstn crypto_sign_SECRETKEYBYTES blob) []
                            BLAKE2B_OUTBYTES in
                  if negb (length res_checksum =? BLAKE2B_OUTBYTES)%nat
                  then None
                  else
                    sum <- read_bytes (checksum privk) BLAKE2B_OUTBYTES ;;
                    if negb (bytes_eqb res_checksum sum) then
                      blob <- explicit_memzero blob
                                crypto_sign_SECRETKEYBYTES ;;
                      cleanup_and_return None (with_blob privk blob)
                        password xorkey EXIT_CHECKSUM
                    else
                      copy_out privk blob password xorkey EXIT_UNPACKED
            end
      end
  | None =>
      blob <- encrypted_blob privk ;;
      copy_out privk blob password xorkey EXIT_PLAIN
  end.

(** The lines of the file: each element is the content of [buf], all
    [buflen] bytes of it, after a call of [getline] that succeeded.  The
    result is the record when the end of the file is reached, or [None]
    inside when the function returned [NULL] before. *)
Fixpoint load_lines (lines : list (list Z)) (first : bool)
    (privk : asignify_private_key) : option (option asignify_private_key) :=
  match lines with
  | [] => Some (Some privk)
  | buf :: more =>
      if first then
        (* Check magic *)
        if memcmp_eq buf PRIVKEY_MAGIC (length PRIVKEY_MAGIC)
        then load_lines more false privk
        else Some None
      else
        match asignify_private_data_parse_line buf privk with
        | None => None
        | Some (true, privk) => load_lines more false privk
        | Some (false, privk) =>
            _ <- asignify_privkey_cleanup privk ;;
            Some None
        end
  end.

Definition asignify_private_data_load (f : list (list Z))
    (password_cb : option asignify_password_cb)
    (canary password xorkey : list Z)
    : option (option asignify_private_data) :=
  parsed <- load_lines f true zero_key ;;
  match parsed with
  | None => Some None
  | Some privk =>
      if negb (asignify_private_key_is_sane privk) then
        _ <- asignify_privkey_cleanup privk ;;
        Some None
      else
        out <- asignify_private_data_unpack_key privk password_cb canary
                 password xorkey ;;
        Some (out_priv out)
  end.

(** [Some None] is [NULL]; the function has no defined result when
    [magiclen] is [0], where [p += magiclen - 1] leaves the buffer. *)
Definition asignify_public_data_load (buf magic : list Z) (magiclen : nat)
    (ver_min ver_max : Z) (id_len data_len : nat)
    : option (option asignify_public_data) :=
  let buflen := length buf in
  if (buflen <=? magiclen)%nat || negb (memcmp_eq buf magic magiclen)
  then Some None
  else
    match magiclen with
    | O => None
    | S _ =>
        let p := skipn (magiclen - 1) buf in
        let '(parsed, errstr, _) := strtoul ULONG_MAX p in
        let version := to_uint parsed in
        if negb (hd NUL errstr =? COLON) || (version <? ver_min)
           || (ver_max <? version)
        then Some None
        else
          let res_version := 1 in
          let res_data_len := id_len in
          let res_id_len := data_len in
          let res_data := xmalloc res_data_len in
          let res_id := xmalloc res_id_len in
          (* Read ID *)
          match b64_pton_stop p res_id_len [COLON] with
          | None => Some None
          | Some written =>
              let res_id := memcpy_into res_id written (length written) in
              if negb (length written =? res_id_len)%nat then Some None
              else
                match strchr p COLON with
                | None => Some None
                | Some p =>
                    let p := tl p in
                    (* Read data *)
                    match b64_pton_stop p res_data_len [] with
                    | None => Some None
                    | Some written =>
                        let res_data :=
                          memcpy_into res_data written (length written) in
                        if negb (length written =? res_data_len)%nat
                        then Some None
                        else
                          Some (Some {| pub_version := res_version;
                                        pub_data := res_data;
                                        pub_data_len := res_data_len;
                                        pub_id := res_id;
                                        pub_id_len := res_id_len |})
                    end
                end
          end
    end.

(** ** The shapes of a sane record, in the words of the specification *)

Definition matches_supported_kdf (privk : asignify_private_key) : Prop :=
  exists alg, pbkdf_alg privk = Some alg /\ cstr alg = cstr PBKDF_ALG.

Definition encrypted_shape (privk : asignify_private_key) : Prop :=
  matches_supported_kdf privk /\
  PBKDF_MINROUNDS <= rounds privk /\
  salt privk <> None /\ id privk <> None /\
  encrypted_blob privk <> None /\ checksum privk <> None /\
  version privk = 1.

Definition plaintext_shape (privk : asignify_private_key) : Prop :=
  ~ matches_supported_kdf privk /\
  id privk <> None /\ encrypted_blob privk <> None /\
  version privk = 1.

(** ** Invariant and measure of the line parser loop *)

(** The value state is entered with no field at hand, and the state to
    resume after white space is the name or the value state. *)
Definition line_inv (v : line_vars) : Prop :=
  (state v = PARSE_VALUE -> parser v = None) /\
  (next_state v = PARSE_NAME \/ next_state v = PARSE_VALUE).

(** The turns a state can take without moving [p]. *)
Definition rank (ch : Z) (v : line_vars) : nat :=
  match state v with
  | PARSE_ERROR => 0
  | PARSE_SEMICOLON => 1
  | PARSE_NAME => 2
  | PARSE_VALUE => 2
  | PARSE_SPACES => if isspace ch then 1 else 3
  end.

Definition measure (v : line_vars) : nat :=
  match lp v with
  | [] => 0
  | ch :: rest => 4 * length rest + 4 + rank ch v
  end.

(** ** The lines the parser accepts, and the release of a secret *)

(** Whether the name of [key_len] bytes at [key_begin] is found. *)
Definition lookup_ok (key_begin : list Z) (key_len : nat) : bool :=
  match bsearch (asignify_parser_fields_cmp key_begin key_len)
          parser_fields with
  | Some _ => true
  | None => false
  end.

(** A scan of the line [buf] from the position [p], with [n] bytes of the
    name passed: name bytes up to a colon, a name that is found, then
    white space to the end. *)
Fixpoint name_scan (buf : list Z) (n : nat) (p : list Z) : bool :=
  match p with
  | [] => false
  | c :: rest =>
      if c =? COLON then
        (0 <? n)%nat && lookup_ok buf n && forallb isspace rest
      else if negb (isgraph c) then false
      else name_scan buf (S n) rest
  end.

(** The value of a string of decimal digits. *)
Definition decimal (ds : list Z) : Z :=
  fold_left (fun acc c => 10 * acc + (c - 48)) ds 0.

(** [asignify_private_data_free]: the buffers that [free] receives, the id
    and the data, as they are at that moment; none for [NULL]. *)
Definition asignify_private_data_free (d : option asignify_private_data)
    : option (list (list Z)) :=
  match d with
  | Some d =>
      wiped <- explicit_memzero (priv_data d) (priv_data_len d) ;;
      Some [priv_id d; wiped]
  | None => Some []
  end.

(** ** Proof steps that recur *)

(** Compares the measures of the loop variables before and after a turn. *)
Ltac measure_lia Hp Est :=
  unfold measure, rank; simpl; rewrite ?Hp; simpl; rewrite ?Est; simpl; lia.

(** Closes a return site of the unpacker once [H] gives what it returns. *)
Ltac finish_path H Halg :=
  injection H as <-; simpl; rewrite ?Halg;
  try match goal with
      | |- context [encrypted_blob ?k] => destruct (encrypted_blob k) eqn:?
      end;
  simpl; rewrite ?Halg;
  repeat split; intros;
  solve [reflexivity | discriminate | congruence | intuition congruence].

(** ** Properties of the C library model *)

Lemma bytes_eqb_refl (a : list Z) : bytes_eqb a a = true.
Proof.
  induction a as [|x a IH]; simpl; [reflexivity|].
  now rewrite Z.eqb_refl, IH.
Qed.

Lemma bytes_eqb_eq (a b : list Z) : bytes_eqb a b = true -> a = b.
Proof.
  revert b; induction a as [|x a IH]; intros [|y b]; simpl; try discriminate.
  - reflexivity.
  - intros H. apply andb_prop in H as [Hxy Hab].
    apply Z.eqb_eq in Hxy. f_equal; auto.
Qed.

Lemma bsearch_loop_found {A : Type} (cmp : A -> Z) (base : list A)
    (fuel : nat) :
  forall l u e,
  bsearch_loop cmp base fuel l u = Some e -> In e base /\ cmp e = 0.
Proof.
  induction fuel as [|fuel IH]; intros l u e; cbn [bsearch_loop];
    [discriminate|].
  destruct (l <? u)%nat; [|discriminate].
  destruct (nth_error base ((l + u) / 2)) as [x|] eqn:Hnth; [|discriminate].
  destruct (cmp x <? 0) eqn:Hlt; [apply IH|].
  destruct (0 <? cmp x) eqn:Hgt; [apply IH|].
  intros [= <-]. split; [now apply nth_error_In in Hnth|].
  apply Z.ltb_ge in Hlt, Hgt. lia.
Qed.

Lemma explicit_memzero_whole (buf w : list Z) (n : nat) :
  length buf = n -> explicit_memzero buf n = Some w -> w = zeros n.
Proof.
  unfold explicit_memzero. intros Hlen.
  rewrite <- Hlen, Nat.leb_refl, skipn_all, app_nil_r.
  now intros [= <-].
Qed.

Lemma explicit_memzero_length (buf w : list Z) (n : nat) :
  explicit_memzero buf n = Some w -> length w = length buf.
Proof.
  unfold explicit_memzero. destruct (n <=? length buf)%nat eqn:E; [|discriminate].
  intros [= <-]. apply Nat.leb_le in E.
  unfold zeros. rewrite length_app, repeat_length, length_skipn. lia.
Qed.

Lemma poke_length (buf : list Z) (i : nat) (v : Z) :
  length (poke buf i v) = length buf.
Proof.
  revert i; induction buf as [|c buf IH]; intros [|i]; simpl; auto.
Qed.

Lemma poke_app_r (pre buf : list Z) (i : nat) (v : Z) :
  poke (pre ++ buf) (length pre + i) v = pre ++ poke buf i v.
Proof.
  induction pre as [|c pre IH]; simpl; [reflexivity|].
  now rewrite IH.
Qed.

(** ** The line parser *)

(** The lookup of a name answers with an entry of the table that agrees
    with the name on the [key_len] bytes compared, and on no more. *)
Lemma lookup_found (key_begin : list Z) (key_len : nat)
    (f : asignify_privkey_parser) :
  bsearch (asignify_parser_fields_cmp key_begin key_len) parser_fields
  = Some f ->
  In f parser_fields /\ strncmp key_begin (field_name f) key_len = 0.
Proof.
  intros H. unfold bsearch in H.
  now apply bsearch_loop_found in H.
Qed.

(** A turn of the loop from a state that satisfies the invariant returns,
    or leaves the record as it is, keeps the invariant and lowers the
    measure. *)
Lemma parse_line_step_inv (ch : Z) (rest : list Z) (v : line_vars) :
  line_inv v -> lp v = ch :: rest ->
  match parse_line_step ch rest v with
  | inr _ => True
  | inl v' =>
      line_inv v' /\ (measure v' < measure v)%nat /\
      line_privk v' = line_privk v
  end.
Proof.
  intros [Hval Hnext] Hp.
  assert (Hm : forall v', (measure v' <= 4 * length (lp v') + 3)%nat).
  { intros v'. unfold measure, rank.
    destruct (lp v') as [|c l]; simpl length; [lia|].
    destruct (state v'); try destruct (isspace c); lia. }
  unfold parse_line_step.
  destruct (state v) eqn:Est.
  - (* PARSE_NAME *)
    destruct (ch =? COLON).
    + destruct (0 <? token_len v)%nat.
      * destruct (bsearch _ parser_fields);
          (split; [split; simpl; [discriminate|exact Hnext]|]);
          (split; [|reflexivity]);
          measure_lia Hp Est.
      * split; [split; simpl; [discriminate|exact Hnext]|].
        split; [|reflexivity].
        measure_lia Hp Est.
    + destruct (negb (isgraph ch)).
      * split; [split; simpl; [discriminate|exact Hnext]|].
        split; [|reflexivity].
        measure_lia Hp Est.
      * split; [split; simpl; [discriminate|exact Hnext]|].
        split; [|reflexivity].
        specialize (Hm (line_update v rest PARSE_NAME)). simpl in Hm.
        unfold measure at 2. rewrite Hp. lia.
  - (* PARSE_SEMICOLON *)
    destruct (ch =? COLON).
    + split; [split; simpl; [discriminate|now right]|].
      split; [|reflexivity].
      match goal with |- (measure ?w < _)%nat => specialize (Hm w) end.
      simpl in Hm. unfold measure at 2. rewrite Hp. lia.
    + split; [split; simpl; [discriminate|exact Hnext]|].
      split; [|reflexivity].
      measure_lia Hp Est.
  - (* PARSE_VALUE *)
    rewrite (Hval eq_refl).
    split; [split; simpl; [discriminate|exact Hnext]|].
    split; [|reflexivity].
    measure_lia Hp Est.
  - (* PARSE_SPACES *)
    destruct (isspace ch) eqn:Esp.
    + split; [split; simpl; [discriminate|exact Hnext]|].
      split; [|reflexivity].
      specialize (Hm (line_update v rest PARSE_SPACES)). simpl in Hm.
      unfold measure at 2. rewrite Hp. lia.
    + split; [split; simpl; [reflexivity|exact Hnext]|].
      split; [|reflexivity].
      destruct Hnext as [Hn | Hn]; rewrite Hn;
        unfold measure, rank; simpl; rewrite Hp; simpl; rewrite Est, Esp; lia.
  - exact I.
Qed.

(** With fuel above the measure the loop ends, and it returns the record it
    was given: no turn of the loop reaches the value conversion. *)
Lemma parse_line_loop_total (fuel : nat) :
  forall v, line_inv v -> (measure v < fuel)%nat ->
  exists b, parse_line_loop fuel v = Some (b, line_privk v).
Proof.
  induction fuel as [|fuel IH]; intros v Hinv Hfuel; [lia|].
  simpl. destruct (lp v) as [|ch rest] eqn:Hp.
  - eexists; reflexivity.
  - pose proof (parse_line_step_inv ch rest v Hinv Hp) as Hstep.
    destruct (parse_line_step ch rest v) as [v'|b].
    + destruct Hstep as (Hinv' & Hlt & Hsame).
      destruct (IH v' Hinv') as [b Hb]; [lia|].
      exists b. now rewrite Hb, Hsame.
    + eexists; reflexivity.
Qed.

(** [asignify_private_data_parse_line] returns for every buffer, and it
    never changes the record. *)
Lemma parse_line_leaves_record (buf : list Z) (privk : asignify_private_key) :
  exists b, asignify_private_data_parse_line buf privk = Some (b, privk).
Proof.
  unfold asignify_private_data_parse_line.
  apply (parse_line_loop_total _ (parse_line_start buf privk)).
  - split; simpl; [discriminate|now left].
  - unfold measure, rank. simpl. destruct buf; simpl length; lia.
Qed.

(** In the value state the test for a digit comes before the test for the
    end of the line: with an unsigned decimal field at hand the line
    terminator itself is taken for an error. *)
Lemma parse_line_step_uint_terminator (rest : list Z) (v : line_vars)
    (f : asignify_privkey_parser) :
  state v = PARSE_VALUE -> parser v = Some f ->
  field_type f = PRIVKEY_FIELD_UINT ->
  parse_line_step LF rest v = inl (line_update v (lp v) PARSE_ERROR).
Proof.
  intros Hst Hf Hty. unfold parse_line_step, is_uint.
  now rewrite Hst, Hf, Hty.
Qed.

(** ** The unpacker *)

Lemma xor_loop_length (n : nat) :
  forall r blob xorkey blob',
  xor_loop n r blob xorkey = Some blob' -> length blob' = length blob.
Proof.
  induction n as [|n IH]; simpl; intros r blob xorkey blob' H.
  - now injection H as <-.
  - destruct (nth_error blob r) as [b|]; [|discriminate].
    destruct (nth_error xorkey r) as [k|]; [|discriminate].
    apply IH in H. now rewrite poke_length in H.
Qed.

Lemma lxor_cancel (x y : Z) : Z.lxor (Z.lxor x y) y = x.
Proof.
  now rewrite Z.lxor_assoc, Z.lxor_nilpotent, Z.lxor_0_r.
Qed.

(** The loop undoes the wrapping: behind [r] bytes it has passed, it turns
    [xor_bytes p k] into [p]. *)
Lemma xor_loop_unwrap (n : nat) :
  forall pre kpre p k,
  length pre = length kpre -> length p = n -> length k = n ->
  xor_loop n (length pre) (pre ++ xor_bytes p k) (kpre ++ k)
  = Some (pre ++ p).
Proof.
  induction n as [|n IH]; intros pre kpre p k Hpre Hp Hk.
  - destruct p; [|discriminate]. destruct k; [|discriminate]. reflexivity.
  - destruct p as [|x p]; [discriminate|]. destruct k as [|y k]; [discriminate|].
    simpl in Hp, Hk. injection Hp as Hp. injection Hk as Hk.
    simpl xor_bytes. simpl xor_loop.
    rewrite nth_error_app2, Nat.sub_diag by lia. simpl.
    rewrite nth_error_app2 by lia.
    rewrite Hpre, Nat.sub_diag. simpl.
    rewrite <- Hpre.
    replace (length pre) with (length pre + 0)%nat at 2 by lia.
    rewrite poke_app_r. simpl poke. rewrite lxor_cancel.
    replace (S (length pre)) with (length (pre ++ [x]))
      by (rewrite length_app; simpl; lia).
    replace (pre ++ x :: xor_bytes p k) with ((pre ++ [x]) ++ xor_bytes p k)
      by (now rewrite <- app_assoc).
    replace (kpre ++ y :: k) with ((kpre ++ [y]) ++ k)
      by (now rewrite <- app_assoc).
    rewrite IH; [now rewrite <- app_assoc| |assumption|assumption].
    rewrite !length_app. simpl. lia.
Qed.

Lemma read_bytes_whole (b : list Z) (n : nat) :
  length b = n -> read_bytes (Some b) n = Some b.
Proof.
  intros <-. unfold read_bytes. now rewrite Nat.leb_refl, firstn_all.
Qed.

Lemma explicit_memzero_zeros (buf : list Z) (n : nat) :
  length buf = n -> explicit_memzero buf n = Some (zeros n).
Proof.
  intros <-. unfold explicit_memzero.
  now rewrite Nat.leb_refl, skipn_all, app_nil_r.
Qed.

Lemma zeros_length (n : nat) : length (zeros n) = n.
Proof. apply repeat_length. Qed.

(** What [cleanup_and_return] hands back, for a record whose blob, when it
    has one, has the size of a secret key. *)
Lemma cleanup_and_return_spec (ret : option asignify_private_data)
    (privk : asignify_private_key) (password xorkey : list Z)
    (path : exit_path) :
  (forall b, encrypted_blob privk = Some b ->
             length b = crypto_sign_SECRETKEYBYTES) ->
  cleanup_and_return ret privk password xorkey path
  = Some {| out_priv := ret; out_privk := zero_key;
            out_released :=
              match encrypted_blob privk with
              | Some _ => with_blob privk (zeros crypto_sign_SECRETKEYBYTES)
              | None => privk
              end;
            out_password := password; out_xorkey := xorkey;
            out_path := path |}.
Proof.
  intros Hlen. unfold cleanup_and_return, asignify_privkey_cleanup.
  destruct (encrypted_blob privk) as [b|]; [|reflexivity].
  now rewrite (explicit_memzero_zeros b _ (Hlen b eq_refl)).
Qed.

Lemma copy_out_spec (privk : asignify_private_key) (blob password xorkey
    : list Z) (path : exit_path) (key_id : list Z) :
  length blob = crypto_sign_SECRETKEYBYTES ->
  read_bytes (id privk) KEY_ID_LEN = Some key_id ->
  copy_out privk blob password xorkey path
  = Some {| out_priv :=
              Some {| priv_data := blob;
                      priv_data_len := crypto_sign_SECRETKEYBYTES;
                      priv_id := key_id; priv_id_len := KEY_ID_LEN |};
            out_privk := zero_key;
            out_released :=
              with_blob privk (zeros crypto_sign_SECRETKEYBYTES);
            out_password := password; out_xorkey := xorkey;
            out_path := path |}.
Proof.
  intros Hlen Hid. unfold copy_out.
  rewrite (read_bytes_whole _ _ Hlen), (explicit_memzero_zeros _ _ Hlen).
  rewrite Hid, cleanup_and_return_spec.
  - reflexivity.
  - simpl. intros b [= <-]. apply zeros_length.
Qed.

Lemma copy_out_id (privk : asignify_private_key) (blob password xorkey
    : list Z) (path : exit_path) (out : unpack_out) :
  copy_out privk blob password xorkey path = Some out ->
  exists key_id, read_bytes (id privk) KEY_ID_LEN = Some key_id.
Proof.
  unfold copy_out.
  destruct (read_bytes (Some blob) _); [|discriminate].
  destruct (explicit_memzero blob _); [|discriminate].
  destruct (read_bytes (id privk) KEY_ID_LEN) as [k|]; [|discriminate].
  intros _. now exists k.
Qed.

(** C2. On every return of [asignify_private_data_unpack_key], for a record
    whose blob has the size of a secret key: the caller's record is wiped
    and its buffers were all handed to [free], the blob zeroed before;
    the array [password] is all zero unless the callback was never called
    (no callback, or no key derivation asked for), and the array [xorkey] is
    all zero unless no key was ever written to it (the return sites before
    the derivation succeeded, and the unencrypted path). *)
Theorem unpack_key_wipes_secrets (privk : asignify_private_key)
    (password_cb : option asignify_password_cb)
    (canary password xorkey : list Z) (out : unpack_out) :
  (forall b, encrypted_blob privk = Some b ->
             length b = crypto_sign_SECRETKEYBYTES) ->
  asignify_private_data_unpack_key privk password_cb canary password xorkey
  = Some out ->
  out_privk out = zero_key /\
  checksum (out_released out) = checksum privk /\
  id (out_released out) = id privk /\
  pbkdf_alg (out_released out) = pbkdf_alg privk /\
  salt (out_released out) = salt privk /\
  encrypted_blob (out_released out)
  = option_map (fun _ => zeros crypto_sign_SECRETKEYBYTES)
               (encrypted_blob privk) /\
  out_password out
  = match out_path out with
    | EXIT_NO_CALLBACK | EXIT_PLAIN => password
    | _ => zeros 1024
    end /\
  out_xorkey out
  = match out_path out with
    | EXIT_CHECKSUM | EXIT_UNPACKED => zeros crypto_sign_SECRETKEYBYTES
    | _ => xorkey
    end /\
  (out_path out = EXIT_PLAIN <-> pbkdf_alg privk = None) /\
  (out_path out = EXIT_NO_CALLBACK <->
   pbkdf_alg privk <> None /\ password_cb = None) /\
  (out_priv out <> None <->
   out_path out = EXIT_UNPACKED \/ out_path out = EXIT_PLAIN).
Proof.
  clear PBKDF_ALG PBKDF_MINROUNDS PRIVKEY_MAGIC ULONG_MAX junk hex2bin
    b64_pton_stop.
  intros Hblob H. unfold asignify_private_data_unpack_key in H.
  destruct (negb _) eqn:Hframe in H; [discriminate|].
  destruct (pbkdf_alg privk) as [alg|] eqn:Halg.
  - destruct password_cb as [cb|].
    + destruct (cb _ _) as [pw r] eqn:Hcb.
      destruct (negb (length pw =? 1024)%nat) eqn:Hpw; [discriminate|].
      apply negb_false_iff, Nat.eqb_eq in Hpw.
      rewrite (explicit_memzero_zeros pw 1024 Hpw) in H.
      destruct ((r <=? 0) || (1024 - 10 <? r) || _) in H.
      * rewrite cleanup_and_return_spec in H by assumption.
        finish_path H Halg.
      * destruct (read_bytes (salt privk) SALT_LEN) as [s|]; [|discriminate].
        destruct (pkcs5_pbkdf2 _ s _ _) as [key|].
        -- destruct (negb (length key =? _)%nat) eqn:Hkey; [discriminate|].
           apply negb_false_iff, Nat.eqb_eq in Hkey.
           destruct (encrypted_blob privk) as [blob|] eqn:Hb; [|discriminate].
           destruct (xor_loop _ 0 blob key) as [blob1|] eqn:Hxor;
             [|discriminate].
           apply xor_loop_length in Hxor.
           rewrite (Hblob blob eq_refl) in Hxor.
           rewrite (explicit_memzero_zeros key _ Hkey) in H.
           destruct (negb (length (blake2b _ _ _) =? _)%nat); [discriminate|].
           destruct (read_bytes (checksum privk) _) as [sum|]; [|discriminate].
           destruct (negb (bytes_eqb _ sum)).
           ++ rewrite (explicit_memzero_zeros blob1 _ Hxor) in H.
              rewrite cleanup_and_return_spec in H
                by (simpl; intros b [= <-]; apply zeros_length).
              finish_path H Halg.
           ++ destruct (copy_out_id _ _ _ _ _ _ H) as [kid Hkid].
              rewrite (copy_out_spec _ _ _ _ _ kid Hxor Hkid) in H.
              finish_path H Halg.
        -- rewrite cleanup_and_return_spec in H by assumption.
           finish_path H Halg.
    + rewrite cleanup_and_return_spec in H by assumption.
      finish_path H Halg.
  - destruct (encrypted_blob privk) as [blob|] eqn:Hb; [|discriminate].
    destruct (copy_out_id _ _ _ _ _ _ H) as [kid Hkid].
    rewrite (copy_out_spec _ _ _ _ _ kid (Hblob blob eq_refl) Hkid) in H.
    finish_path H Halg.
Qed.

(** C1. Unpacking a sane encrypted record that wraps [plaintext] (the blob
    is [plaintext] xor the key derived from the password, the salt and the
    rounds; the checksum is the digest of [plaintext]), with a callback
    that writes this password inside the usable part of the array and
    leaves the canary as it is, succeeds and returns [plaintext] together
    with the id of the record. *)
Theorem unpack_key_roundtrip (privk : asignify_private_key)
    (cb : asignify_password_cb) (canary password xorkey : list Z)
    (pass plaintext key key_salt key_id buf : list Z) (r : Z) :
  encrypted_shape privk ->
  salt privk = Some key_salt -> length key_salt = SALT_LEN ->
  id privk = Some key_id -> length key_id = KEY_ID_LEN ->
  length plaintext = crypto_sign_SECRETKEYBYTES ->
  pkcs5_pbkdf2 pass key_salt crypto_sign_SECRETKEYBYTES (rounds privk)
  = Some key ->
  length key = crypto_sign_SECRETKEYBYTES ->
  encrypted_blob privk = Some (xor_bytes plaintext key) ->
  checksum privk = Some (blake2b plaintext [] BLAKE2B_OUTBYTES) ->
  length (blake2b plaintext [] BLAKE2B_OUTBYTES) = BLAKE2B_OUTBYTES ->
  length canary = 10%nat -> length password = 1024%nat ->
  length xorkey = crypto_sign_SECRETKEYBYTES ->
  cb (firstn (1024 - 10) password ++ canary) (1024 - 10)%nat = (buf, r) ->
  length buf = 1024%nat -> 0 < r <= 1024 - 10 ->
  firstn (Z.to_nat r) buf = pass -> skipn (1024 - 10) buf = canary ->
  exists out,
    asignify_private_data_unpack_key privk (Some cb) canary password xorkey
    = Some out /\
    out_priv out
    = Some {| priv_data := plaintext;
              priv_data_len := crypto_sign_SECRETKEYBYTES;
              priv_id := key_id; priv_id_len := KEY_ID_LEN |}.
Proof.
  intros [[alg [Halg _]] _] Hsalt Hsaltlen Hid Hidlen Hplain Hkdf Hkey Hblob
    Hsum Hsumlen Hcanary Hpassword Hxorkey Hcb Hbuf Hr Hpass Hskip.
  unfold asignify_private_data_unpack_key.
  rewrite Hcanary, Hpassword, Hxorkey, !Nat.eqb_refl. cbn [negb andb orb].
  rewrite Halg, Hcb, Hbuf, Nat.eqb_refl. cbn [negb andb orb].
  replace (r <=? 0) with false by (symmetry; apply Z.leb_gt; lia).
  replace (1024 - 10 <? r) with false by (symmetry; apply Z.ltb_ge; lia).
  rewrite Hskip, bytes_eqb_refl. cbn [negb andb orb].
  rewrite Hsalt, (read_bytes_whole _ _ Hsaltlen), Hpass, Hkdf, Hkey,
    Nat.eqb_refl.
  cbn [negb andb orb].
  rewrite (explicit_memzero_zeros _ _ Hbuf), Hblob.
  pose proof (xor_loop_unwrap _ [] [] plaintext key eq_refl Hplain Hkey)
    as Hxor.
  simpl in Hxor. rewrite Hxor.
  rewrite (explicit_memzero_zeros _ _ Hkey).
  rewrite (firstn_all2 plaintext) by lia.
  rewrite Hsumlen, Nat.eqb_refl. cbn [negb andb orb].
  rewrite Hsum, (read_bytes_whole _ _ Hsumlen), bytes_eqb_refl.
  cbn [negb andb orb].
  eexists. split.
  - apply copy_out_spec; [exact Hplain|].
    rewrite Hid. now apply read_bytes_whole.
  - reflexivity.
Qed.

(** ** The sanity check *)

Lemma is_set_true (p : option (list Z)) : is_set p = true <-> p <> None.
Proof.
  destruct p; simpl; split; intros H; congruence.
Qed.

Lemma supported_kdf_test (privk : asignify_private_key) :
  match pbkdf_alg privk with
  | Some alg => strcmp_eq alg PBKDF_ALG
  | None => false
  end = true <-> matches_supported_kdf privk.
Proof.
  unfold matches_supported_kdf, strcmp_eq. split.
  - destruct (pbkdf_alg privk) as [alg|]; [|discriminate].
    intros H. exists alg. split; [reflexivity|now apply bytes_eqb_eq].
  - intros (alg & -> & ->). apply bytes_eqb_refl.
Qed.

(** C8. [asignify_private_key_is_sane] answers true exactly for the records
    of the encrypted shape (supported key derivation named, enough rounds,
    salt, id, blob and checksum present, version 1) and of the plaintext
    shape (key derivation absent or not the supported one, id and blob
    present, version 1).  The function is a test on the record: it returns
    a truth value and nothing else. *)
Theorem is_sane_iff_shapes (privk : asignify_private_key) :
  asignify_private_key_is_sane privk = true <->
  encrypted_shape privk \/ plaintext_shape privk.
Proof.
  unfold asignify_private_key_is_sane, encrypted_shape, plaintext_shape.
  pose proof (supported_kdf_test privk) as Hkdf.
  destruct (match pbkdf_alg privk with
            | Some alg => strcmp_eq alg PBKDF_ALG
            | None => false
            end).
  - assert (Hm : matches_supported_kdf privk) by now apply Hkdf.
    destruct (PBKDF_MINROUNDS <=? rounds privk) eqn:Hr.
    + apply Z.leb_le in Hr.
      destruct (is_set (salt privk)) eqn:Hs.
      * destruct (version privk =? 1) eqn:Hv.
        -- apply Z.eqb_eq in Hv.
           destruct (is_set (id privk)) eqn:Hi;
             destruct (is_set (encrypted_blob privk)) eqn:Hb;
             destruct (is_set (checksum privk)) eqn:Hc; simpl;
             (split;
              [ intros H; try discriminate H; left;
                repeat split; try assumption; now apply is_set_true
              | intros [(_ & _ & _ & Hi' & Hb' & Hc' & _) | (Hn & _)];
                [ apply is_set_true in Hi', Hb', Hc'; congruence
                | contradiction ] ]).
        -- apply Z.eqb_neq in Hv. split; [discriminate|].
           intros [(_ & _ & _ & _ & _ & _ & Hv') | (Hn & _)];
             [contradiction|contradiction].
      * split; [discriminate|].
        intros [(_ & _ & Hs' & _) | (Hn & _)]; [|contradiction].
        apply is_set_true in Hs'. congruence.
    + apply Z.leb_gt in Hr. split; [discriminate|].
      intros [(_ & Hr' & _) | (Hn & _)]; [lia|contradiction].
  - assert (Hm : ~ matches_supported_kdf privk).
    { intros Hm. apply Hkdf in Hm. discriminate. }
    destruct (version privk =? 1) eqn:Hv.
    + apply Z.eqb_eq in Hv.
      destruct (is_set (id privk)) eqn:Hi;
        destruct (is_set (encrypted_blob privk)) eqn:Hb; simpl;
        (split;
         [ intros H; try discriminate H; right;
           repeat split; try assumption; now apply is_set_true
         | intros [(Hy & _) | (_ & Hi' & Hb' & _)];
           [ contradiction
           | apply is_set_true in Hi', Hb'; congruence ] ]).
    + apply Z.eqb_neq in Hv. split; [discriminate|].
      intros [(Hy & _) | (_ & _ & _ & Hv')]; contradiction.
Qed.

(** The two shapes exclude each other. *)
Lemma shapes_exclusive (privk : asignify_private_key) :
  encrypted_shape privk -> plaintext_shape privk -> False.
Proof.
  intros (Hm & _) (Hn & _). contradiction.
Qed.

(** ** Loading a private key file *)

Lemma load_lines_record (lines : list (list Z)) :
  forall first privk, encrypted_blob privk = None ->
  load_lines lines first privk = Some None \/
  load_lines lines first privk = Some (Some privk).
Proof.
  induction lines as [|buf more IH]; intros first privk Hblob; simpl.
  - now right.
  - destruct first.
    + destruct (memcmp_eq buf PRIVKEY_MAGIC _); [now apply IH|now left].
    + destruct (parse_line_leaves_record buf privk) as [b ->].
      destruct b; [now apply IH|].
      unfold asignify_privkey_cleanup. rewrite Hblob. now left.
Qed.

(** No line sets [version], which [memset] made [0], and the sanity check
    asks for [version == 1]: whatever the file holds,
    [asignify_private_data_load] returns [NULL]. *)
Lemma private_data_load_returns_null (f : list (list Z))
    (password_cb : option asignify_password_cb)
    (canary password xorkey : list Z) :
  asignify_private_data_load f password_cb canary password xorkey
  = Some None.
Proof.
  unfold asignify_private_data_load.
  destruct (load_lines_record f true zero_key eq_refl) as [-> | ->];
    reflexivity.
Qed.

(** ** Field values *)

(** The text conversion puts the NUL at the start of the copy, not behind
    it: the buffer stored holds the empty string, and its last byte is
    whatever the allocation held. *)
Lemma parse_value_text (val : list Z) (len : nat)
    (f : asignify_privkey_parser) (privk : asignify_private_key) :
  field_type f = PRIVKEY_FIELD_STRING ->
  (len <= length val)%nat ->
  exists buf,
    asignify_private_data_parse_value val len f privk
    = (true, store_ptr (struct_offset f) (Some buf) privk) /\
    length buf = (len + 1)%nat /\
    cstr buf = [] /\
    nth_error buf len = Some (if (len =? 0)%nat then NUL else junk len).
Proof.
  intros Hty Hlen. unfold asignify_private_data_parse_value. rewrite Hty.
  eexists. split; [reflexivity|].
  unfold memcpy_into, xmalloc.
  assert (Hcopy : length (firstn len val) = len)
    by (rewrite length_firstn; lia).
  assert (Hsk : skipn len (map junk (seq 0 (len + 1))) = [junk len]).
  { rewrite skipn_map, skipn_seq. replace (len + 1 - len)%nat with 1%nat by lia.
    reflexivity. }
  rewrite Hsk. split; [|split].
  - rewrite poke_length, length_app. simpl. lia.
  - destruct (firstn len val); reflexivity.
  - destruct len as [|n].
    + destruct (firstn 0 val) eqn:E; [reflexivity|]. simpl in E. discriminate.
    + destruct (firstn (S n) val) as [|c l] eqn:E; [simpl in Hcopy; lia|].
      simpl in Hcopy. injection Hcopy as Hl. simpl.
      rewrite nth_error_app2 by lia. now rewrite Hl, Nat.sub_diag.
Qed.


(** Any other length fails the test, and the record stays as it is. *)
Lemma parse_value_hex_length (val : list Z) (len : nat)
    (f : asignify_privkey_parser) (privk : asignify_private_key) :
  field_type f = PRIVKEY_FIELD_HEX ->
  len <> (2 * required_len f)%nat -> len <> (2 * required_len f + 1)%nat ->
  asignify_private_data_parse_value val len f privk = (false, privk).
Proof.
  intros Hty H0 H1. unfold asignify_private_data_parse_value. rewrite Hty.
  destruct (len / 2 =? required_len f)%nat eqn:E; [|reflexivity].
  apply Nat.eqb_eq in E. exfalso.
  pose proof (Nat.div_mod_eq len 2) as Hd.
  pose proof (Nat.mod_upper_bound len 2) as Hm. lia.
Qed.


(** ** The public container *)

(** What is accepted carries the lengths crossed over: the identifier has
    [data_len] bytes and the data [id_len]. *)
Lemma public_data_load_lengths (buf magic : list Z) (magiclen : nat)
    (ver_min ver_max : Z) (id_len data_len : nat)
    (res : asignify_public_data) :
  asignify_public_data_load buf magic magiclen ver_min ver_max id_len data_len
  = Some (Some res) ->
  pub_id_len res = data_len /\ pub_data_len res = id_len /\
  length (pub_id res) = data_len /\ length (pub_data res) = id_len.
Proof.
  unfold asignify_public_data_load.
  destruct (_ || _); [discriminate|].
  destruct magiclen as [|m]; [discriminate|].
  destruct (strtoul ULONG_MAX _) as [[parsed errstr] e].
  destruct (_ || _); [discriminate|].
  destruct (b64_pton_stop _ data_len _) as [w1|]; [|discriminate].
  destruct (negb (length w1 =? data_len)%nat) eqn:E1; [discriminate|].
  destruct (strchr _ COLON) as [p|]; [|discriminate].
  destruct (b64_pton_stop _ id_len _) as [w2|]; [|discriminate].
  destruct (negb (length w2 =? id_len)%nat) eqn:E2; [discriminate|].
  apply negb_false_iff, Nat.eqb_eq in E1, E2.
  intros [= <-]. simpl. unfold memcpy_into, xmalloc.
  rewrite !length_app, !length_firstn, !length_skipn, !length_map, !length_seq.
  repeat split; lia.
Qed.

(** C10. Whatever version the buffer names inside the accepted range, a
    container that [asignify_public_data_load] returns has version [1]:
    the number parsed serves the range test only. *)
Theorem public_data_load_version_is_one (buf magic : list Z)
    (magiclen : nat) (ver_min ver_max : Z) (id_len data_len : nat)
    (res : asignify_public_data) :
  asignify_public_data_load buf magic magiclen ver_min ver_max id_len data_len
  = Some (Some res) ->
  pub_version res = 1.
Proof.
  unfold asignify_public_data_load.
  destruct (_ || _); [discriminate|].
  destruct magiclen as [|m]; [discriminate|].
  destruct (strtoul ULONG_MAX _) as [[parsed errstr] e].
  destruct (_ || _); [discriminate|].
  destruct (b64_pton_stop _ data_len _) as [w1|]; [|discriminate].
  destruct (negb (length w1 =? data_len)%nat); [discriminate|].
  destruct (strchr _ COLON) as [p|]; [|discriminate].
  destruct (b64_pton_stop _ id_len _) as [w2|]; [|discriminate].
  destruct (negb (length w2 =? id_len)%nat); [discriminate|].
  now intros [= <-].
Qed.

(** ** The language of the line parser *)

Lemma parse_line_loop_more_fuel (fuel : nat) :
  forall v r, parse_line_loop fuel v = Some r ->
  parse_line_loop (S fuel) v = Some r.
Proof.
  induction fuel as [|fuel IH]; intros v r H; [discriminate|].
  cbn [parse_line_loop] in H |- *.
  destruct (lp v) as [|ch rest]; [exact H|].
  destruct (parse_line_step ch rest v) as [v'|b]; [|exact H].
  now apply IH.
Qed.

Lemma parse_line_loop_fuel_le (fuel fuel' : nat) (v : line_vars)
    (r : bool * asignify_private_key) :
  (fuel <= fuel')%nat -> parse_line_loop fuel v = Some r ->
  parse_line_loop fuel' v = Some r.
Proof.
  induction 1 as [|fuel' _ IH]; intros H; [exact H|].
  now apply parse_line_loop_more_fuel, IH.
Qed.

Lemma parse_line_loop_turn (fuel : nat) (ch : Z) (rest : list Z)
    (v v' : line_vars) :
  lp v = ch :: rest -> parse_line_step ch rest v = inl v' ->
  parse_line_loop (S fuel) v = parse_line_loop fuel v'.
Proof.
  intros Hp Hstep. cbn [parse_line_loop]. now rewrite Hp, Hstep.
Qed.

Lemma parse_line_loop_error (fuel : nat) (v : line_vars) :
  state v = PARSE_ERROR ->
  parse_line_loop (S fuel) v = Some (false, line_privk v).
Proof.
  intros Hst. cbn [parse_line_loop]. destruct (lp v) as [|ch rest].
  - now rewrite Hst.
  - unfold parse_line_step. now rewrite Hst.
Qed.

(** From the white space behind the colon the loop ends well exactly when
    white space is all that is left. *)
Lemma parse_line_loop_spaces (sp : list Z) :
  forall v, state v = PARSE_SPACES -> next_state v = PARSE_VALUE ->
  lp v = sp ->
  exists fuel,
    parse_line_loop fuel v = Some (forallb isspace sp, line_privk v).
Proof.
  induction sp as [|c sp IH]; intros v Hst Hnext Hp.
  - exists 1%nat. cbn [parse_line_loop]. now rewrite Hp, Hst.
  - cbn [forallb]. destruct (isspace c) eqn:Hsp.
    + destruct (IH (line_update v sp PARSE_SPACES)) as [fuel Hfuel];
        [reflexivity|exact Hnext|reflexivity|].
      exists (S fuel).
      rewrite (parse_line_loop_turn fuel c sp v
                 (line_update v sp PARSE_SPACES) Hp); [exact Hfuel|].
      unfold parse_line_step. now rewrite Hst, Hsp.
    + set (v1 := {| lp := lp v; lc := lp v; state := next_state v;
                    next_state := next_state v; parser := None;
                    line_privk := line_privk v |}).
      exists 3%nat.
      rewrite (parse_line_loop_turn 2 c sp v v1 Hp)
        by (unfold parse_line_step; now rewrite Hst, Hsp).
      rewrite (parse_line_loop_turn 1 c sp v1
                 (line_update v1 (lp v1) PARSE_ERROR) Hp)
        by (unfold parse_line_step; cbn [v1 state parser];
            now rewrite Hnext).
      now rewrite parse_line_loop_error.
Qed.

(** From the name state, what the loop returns is what the scan says. *)
Lemma parse_line_loop_name (buf p : list Z) :
  forall v, state v = PARSE_NAME -> lc v = buf -> lp v = p ->
  (length p <= length buf)%nat ->
  exists fuel,
    parse_line_loop fuel v
    = Some (name_scan buf (length buf - length p) p, line_privk v).
Proof.
  induction p as [|c p IH]; intros v Hst Hc Hp Hlen.
  - exists 1%nat. cbn [parse_line_loop]. now rewrite Hp, Hst.
  - cbn [name_scan].
    assert (Htok : token_len v = (length buf - length (c :: p))%nat)
      by (unfold token_len; now rewrite Hc, Hp).
    destruct (c =? COLON) eqn:Hcolon.
    + destruct (0 <? length buf - length (c :: p))%nat eqn:Hpos.
      * unfold lookup_ok.
        destruct (bsearch _ parser_fields) as [f|] eqn:Hfound.
        -- set (v1 := {| lp := lp v; lc := buf; state := PARSE_SEMICOLON;
                         next_state := next_state v; parser := Some f;
                         line_privk := line_privk v |}).
           set (v2 := {| lp := p; lc := lc v1; state := PARSE_SPACES;
                         next_state := PARSE_VALUE; parser := parser v1;
                         line_privk := line_privk v1 |}).
           destruct (parse_line_loop_spaces p v2) as [fuel Hfuel];
             [reflexivity|reflexivity|reflexivity|].
           exists (S (S fuel)).
           rewrite (parse_line_loop_turn (S fuel) c p v v1 Hp)
             by (unfold parse_line_step;
                 now rewrite Hst, Hcolon, Htok, Hpos, Hc, Hfound).
           rewrite (parse_line_loop_turn fuel c p v1 v2 Hp)
             by (unfold parse_line_step; cbn [v1 state];
                 now rewrite Hcolon).
           exact Hfuel.
        -- set (v1 := {| lp := lp v; lc := buf; state := PARSE_ERROR;
                         next_state := next_state v; parser := None;
                         line_privk := line_privk v |}).
           exists 2%nat.
           rewrite (parse_line_loop_turn 1 c p v v1 Hp)
             by (unfold parse_line_step;
                 now rewrite Hst, Hcolon, Htok, Hpos, Hc, Hfound).
           now rewrite parse_line_loop_error.
      * exists 2%nat.
        rewrite (parse_line_loop_turn 1 c p v
                   (line_update v (lp v) PARSE_ERROR) Hp)
          by (unfold parse_line_step; now rewrite Hst, Hcolon, Htok, Hpos).
        now rewrite parse_line_loop_error.
    + destruct (negb (isgraph c)) eqn:Hgraph.
      * exists 2%nat.
        rewrite (parse_line_loop_turn 1 c p v
                   (line_update v (lp v) PARSE_ERROR) Hp)
          by (unfold parse_line_step; now rewrite Hst, Hcolon, Hgraph).
        now rewrite parse_line_loop_error.
      * destruct (IH (line_update v p PARSE_NAME)) as [fuel Hfuel];
          [reflexivity|exact Hc|reflexivity|simpl in Hlen; lia|].
        exists (S fuel).
        rewrite (parse_line_loop_turn fuel c p v
                   (line_update v p PARSE_NAME) Hp)
          by (unfold parse_line_step; now rewrite Hst, Hcolon, Hgraph).
        replace (S (length buf - length (c :: p)))%nat
          with (length buf - length p)%nat by (simpl in Hlen |- *; lia).
        exact Hfuel.
Qed.

(** What the line parser returns is what the scan of the line says. *)
Lemma parse_line_is_scan (buf : list Z) (privk : asignify_private_key) :
  asignify_private_data_parse_line buf privk
  = Some (name_scan buf 0 buf, privk).
Proof.
  destruct (parse_line_loop_name buf buf (parse_line_start buf privk))
    as [fuel Hfuel]; [reflexivity|reflexivity|reflexivity|lia|].
  rewrite Nat.sub_diag in Hfuel. cbn [parse_line_start line_privk] in Hfuel.
  destruct (parse_line_leaves_record buf privk) as [b Hb].
  rewrite Hb. unfold asignify_private_data_parse_line in Hb.
  pose proof (parse_line_loop_fuel_le _ _ _ _
                (Nat.le_max_l fuel (4 * length buf + 4)) Hfuel) as H1.
  pose proof (parse_line_loop_fuel_le _ _ _ _
                (Nat.le_max_r fuel (4 * length buf + 4)) Hb) as H2.
  congruence.
Qed.

Lemma forallb_isspace (l : list Z) :
  forallb isspace l = true <-> Forall (fun c => isspace c = true) l.
Proof.
  rewrite forallb_forall, Forall_forall. reflexivity.
Qed.

(** The scan answers true for a name of graphic bytes other than the
    colon, a colon and white space, when the name is found. *)
Lemma name_scan_true (buf : list Z) (p : list Z) :
  forall n,
  name_scan buf n p = true <->
  exists name spaces,
    p = name ++ COLON :: spaces /\
    Forall (fun c => isgraph c = true /\ c <> COLON) name /\
    (0 < n + length name)%nat /\
    lookup_ok buf (n + length name) = true /\
    Forall (fun c => isspace c = true) spaces.
Proof.
  induction p as [|c p IH]; intros n; cbn [name_scan].
  - split; [discriminate|].
    intros (name & spaces & H & _). now destruct name.
  - destruct (c =? COLON) eqn:Hcolon.
    + apply Z.eqb_eq in Hcolon. subst c. split.
      * intros H. apply andb_prop in H as [H Hsp].
        apply andb_prop in H as [Hpos Hok].
        exists [], p. rewrite Nat.add_0_r.
        repeat split; [constructor|now apply Nat.ltb_lt|exact Hok|].
        now apply forallb_isspace.
      * intros (name & spaces & Heq & Hname & Hpos & Hok & Hsp).
        destruct name as [|d name].
        -- cbn [app] in Heq. injection Heq as <-.
           rewrite Nat.add_0_r in Hpos, Hok.
           apply Nat.ltb_lt in Hpos. rewrite Hpos, Hok.
           now apply forallb_isspace.
        -- cbn [app] in Heq. injection Heq as <- _.
           inversion Hname as [|? ? [_ Hd] _]. contradiction.
    + apply Z.eqb_neq in Hcolon.
      destruct (isgraph c) eqn:Hgraph; cbn [negb].
      * rewrite IH. split.
        -- intros (name & spaces & -> & Hname & Hpos & Hok & Hsp).
           exists (c :: name), spaces. cbn [app length].
           rewrite Nat.add_succ_r.
           repeat split; try assumption. now constructor.
        -- intros (name & spaces & Heq & Hname & Hpos & Hok & Hsp).
           destruct name as [|d name]; cbn [app] in Heq.
           ++ injection Heq as Heq _. congruence.
           ++ injection Heq as <- ->. cbn [length] in Hpos, Hok.
              rewrite Nat.add_succ_r in Hpos, Hok.
              exists name, spaces.
              inversion Hname; subst. repeat split; assumption.
      * split; [discriminate|].
        intros (name & spaces & Heq & Hname & _).
        destruct name as [|d name]; cbn [app] in Heq.
        -- injection Heq as Heq _. congruence.
        -- injection Heq as <- _. inversion Hname as [|? ? [Hd _] _].
           congruence.
Qed.

(** X1. [asignify_private_data_parse_line] returns for every buffer and
    never changes the record.  It returns true exactly for a buffer made of
    a name (at least one graphic byte, none of them a colon) that the
    lookup finds, one colon, and white space up to the end of the buffer:
    a buffer that carries a value is refused. *)
Theorem parse_line_accepts_names_only (buf : list Z)
    (privk : asignify_private_key) :
  exists b,
    asignify_private_data_parse_line buf privk = Some (b, privk) /\
    (b = true <->
     exists name spaces,
       buf = name ++ COLON :: spaces /\
       name <> [] /\
       Forall (fun c => isgraph c = true /\ c <> COLON) name /\
       bsearch (asignify_parser_fields_cmp buf (length name)) parser_fields
       <> None /\
       Forall (fun c => isspace c = true) spaces).
Proof.
  exists (name_scan buf 0 buf). split; [apply parse_line_is_scan|].
  rewrite name_scan_true. cbn [Nat.add]. unfold lookup_ok. split.
  - intros (name & spaces & Heq & Hname & Hpos & Hok & Hsp).
    exists name, spaces. repeat split; try assumption.
    + destruct name; [simpl in Hpos; lia|discriminate].
    + destruct (bsearch _ parser_fields); [discriminate|discriminate].
  - intros (name & spaces & Heq & Hne & Hname & Hok & Hsp).
    exists name, spaces. repeat split; try assumption.
    + destruct name; [contradiction|simpl; lia].
    + destruct (bsearch _ parser_fields); [reflexivity|contradiction].
Qed.

(** ** The lookup of a field name *)

Lemma strncmp_firstn (n : nat) :
  forall s1 s2, (n <= length s1)%nat ->
  strncmp s1 s2 n = strncmp (firstn n s1) s2 n.
Proof.
  induction n as [|n IH]; intros s1 s2 Hlen; [reflexivity|].
  destruct s1 as [|c1 s1]; [simpl in Hlen; lia|].
  cbn [strncmp firstn hd tl].
  rewrite IH by (simpl in Hlen; lia). reflexivity.
Qed.

Lemma strncmp_zero (n : nat) :
  forall s1 s2, (n <= length s1)%nat ->
  Forall (fun c => c <> NUL) (firstn n s1) ->
  strncmp s1 s2 n = 0 ->
  (n <= length s2)%nat /\ firstn n s1 = firstn n s2.
Proof.
  induction n as [|n IH]; intros s1 s2 Hlen Hnz H.
  - split; [lia|reflexivity].
  - destruct s1 as [|c1 s1]; [simpl in Hlen; lia|].
    cbn [firstn] in Hnz. inversion Hnz as [|? ? Hc1 Hrest]; subst.
    cbn [strncmp hd tl] in H.
    destruct (c1 =? hd NUL s2) eqn:Heq; cbn [negb] in H.
    + apply Z.eqb_eq in Heq.
      destruct s2 as [|c2 s2]; [simpl in Heq; congruence|].
      simpl in Heq. subst c2.
      destruct (c1 =? NUL) eqn:Hnul; [apply Z.eqb_eq in Hnul; congruence|].
      destruct (IH s1 s2) as [Hle Hfirst];
        [simpl in Hlen; lia|exact Hrest|exact H|].
      split; [simpl; lia|]. cbn [firstn]. now rewrite Hfirst.
    + apply Z.eqb_neq in Heq. lia.
Qed.

Lemma bsearch_loop_ext {A : Type} (cmp cmp' : A -> Z) (base : list A)
    (fuel : nat) :
  (forall e, In e base -> cmp e = cmp' e) ->
  forall l u,
  bsearch_loop cmp base fuel l u = bsearch_loop cmp' base fuel l u.
Proof.
  intros Hext. induction fuel as [|fuel IH]; intros l u; [reflexivity|].
  cbn [bsearch_loop]. destruct (l <? u)%nat; [|reflexivity].
  destruct (nth_error base ((l + u) / 2)) as [x|] eqn:Hnth; [|reflexivity].
  rewrite <- (Hext x) by (now apply nth_error_In in Hnth).
  now rewrite !IH.
Qed.

(** The lookup of each prefix of each registered name, computed. *)
Lemma lookup_prefix_found (f : asignify_privkey_parser) (n : nat) :
  In f parser_fields -> (0 < n <= length (field_name f))%nat ->
  bsearch (fun e => strncmp (firstn n (field_name f)) (field_name e) n)
    parser_fields = Some f.
Proof.
  intros Hin Hn. unfold parser_fields in Hin. cbn [In] in Hin.
  repeat (destruct Hin as [<- | Hin];
          [ cbn [field_name] in Hn;
            match type of Hn with
            | context [length ?l] =>
                let k := eval vm_compute in (length l) in
                change (length l) with k in Hn
            end;
            do 9 (destruct n as [|n];
                  [ first [ exfalso; lia | vm_compute; reflexivity ] | ]);
            exfalso; lia | ]).
  contradiction.
Qed.

(** X2. For a name of [n >= 1] bytes without a NUL, the lookup answers
    with the entry [f] exactly when [f] is an entry of the table whose name
    starts with these [n] bytes: each registered name is found, and so is
    each of its prefixes, with the entry of the full name. *)
Theorem lookup_finds_prefixes (key_begin : list Z) (key_len : nat)
    (f : asignify_privkey_parser) :
  (0 < key_len <= length key_begin)%nat ->
  Forall (fun c => c <> NUL) (firstn key_len key_begin) ->
  bsearch (asignify_parser_fields_cmp key_begin key_len) parser_fields
  = Some f <->
  In f parser_fields /\
  (key_len <= length (field_name f))%nat /\
  firstn key_len key_begin = firstn key_len (field_name f).
Proof.
  intros Hlen Hnz. split.
  - intros H. unfold bsearch in H. apply bsearch_loop_found in H.
    destruct H as [Hin Hcmp]. split; [exact Hin|].
    unfold asignify_parser_fields_cmp in Hcmp.
    apply strncmp_zero in Hcmp; [exact Hcmp|lia|exact Hnz].
  - intros (Hin & Hle & Hfirst).
    rewrite <- (lookup_prefix_found f key_len Hin) by lia.
    unfold bsearch. apply bsearch_loop_ext.
    intros e _. unfold asignify_parser_fields_cmp.
    rewrite strncmp_firstn by lia. now rewrite Hfirst.
Qed.

(** ** What a value conversion writes *)

(** X3. A value conversion writes at most the member that its table entry
    names: [version] is never written, and every other member is left as it
    was, whether the conversion succeeds or fails. *)
Theorem parse_value_writes_one_member (val : list Z) (len : nat)
    (f : asignify_privkey_parser) (privk : asignify_private_key) :
  let after := snd (asignify_private_data_parse_value val len f privk) in
  version after = version privk /\
  (struct_offset f <> OFFSET_checksum -> checksum after = checksum privk) /\
  (struct_offset f <> OFFSET_encrypted_blob ->
   encrypted_blob after = encrypted_blob privk) /\
  (struct_offset f <> OFFSET_id -> id after = id privk) /\
  (struct_offset f <> OFFSET_pbkdf_alg ->
   pbkdf_alg after = pbkdf_alg privk) /\
  (struct_offset f <> OFFSET_rounds -> rounds after = rounds privk) /\
  (struct_offset f <> OFFSET_salt -> salt after = salt privk).
Proof.
  unfold asignify_private_data_parse_value.
  destruct (field_type f).
  - destruct (struct_offset f); cbn; repeat split; congruence.
  - destruct (strtoul ULONG_MAX val) as [[v rest] erange].
    destruct (struct_offset f); cbn; repeat split; congruence.
  - destruct (negb (len / 2 =? required_len f)%nat);
      [cbn; repeat split; reflexivity|].
    destruct (hex2bin (len / 2) (firstn len val));
      destruct (struct_offset f); cbn; repeat split; congruence.
Qed.

Lemma isdigit_range (c : Z) : isdigit c = true <-> 48 <= c <= 57.
Proof.
  unfold isdigit. rewrite andb_true_iff, !Z.leb_le. reflexivity.
Qed.

Lemma digits_value_decimal (ds : list Z) :
  forall acc t rest,
  Forall (fun c => isdigit c = true) ds -> isdigit t = false ->
  digits_value acc (ds ++ t :: rest)
  = (fold_left (fun a c => 10 * a + (c - 48)) ds acc, t :: rest).
Proof.
  induction ds as [|d ds IH]; intros acc t rest Hds Ht; cbn.
  - now rewrite Ht.
  - inversion Hds as [|? ? Hd Hrest]; subst. rewrite Hd. now apply IH.
Qed.

(** [strtoul] on a buffer that starts with a digit. *)
Lemma strtoul_digits (d : Z) (ds : list Z) (t : Z) (rest : list Z) :
  Forall (fun c => isdigit c = true) (d :: ds) -> isdigit t = false ->
  strtoul ULONG_MAX ((d :: ds) ++ t :: rest)
  = if ULONG_MAX <? decimal (d :: ds)
    then (ULONG_MAX, t :: rest, true)
    else (decimal (d :: ds), t :: rest, false).
Proof.
  intros Hds Ht.
  pose proof (digits_value_decimal (d :: ds) 0 t rest Hds Ht) as Hval.
  inversion Hds as [|? ? Hd _]; subst.
  assert (Hcases : d = 48 \/ d = 49 \/ d = 50 \/ d = 51 \/ d = 52 \/ d = 53
                   \/ d = 54 \/ d = 55 \/ d = 56 \/ d = 57)
    by (apply isdigit_range in Hd; lia).
  unfold strtoul, decimal.
  cbn [app] in Hval |- *.
  cbn [skip_spaces].
  repeat (destruct Hcases as [-> | Hcases]); try subst d;
    match goal with
    | |- context [isspace ?c] =>
        change (isspace c) with false; cbv iota beta;
        change (isdigit c) with true; cbv iota beta
    end;
    rewrite Hval; reflexivity.
Qed.

(** X4. The unsigned conversion does not look at [len]: it reads the
    decimal digits at [val] up to the first byte that is not a digit.  The
    number it stores is reduced modulo [2 ^ 32] without an error; only a
    number above [ULONG_MAX] makes it fail, and then it has stored
    [ULONG_MAX] reduced the same way. *)
Theorem parse_value_uint_wraps (d : Z) (ds : list Z) (t : Z)
    (rest : list Z) (len : nat) (f : asignify_privkey_parser)
    (privk : asignify_private_key) :
  field_type f = PRIVKEY_FIELD_UINT ->
  Forall (fun c => isdigit c = true) (d :: ds) -> isdigit t = false ->
  asignify_private_data_parse_value ((d :: ds) ++ t :: rest) len f privk
  = if ULONG_MAX <? decimal (d :: ds)
    then (false, store_uint (struct_offset f) (ULONG_MAX mod 2 ^ 32) privk)
    else (true,
          store_uint (struct_offset f) (decimal (d :: ds) mod 2 ^ 32) privk).
Proof.
  intros Hty Hds Ht. unfold asignify_private_data_parse_value.
  rewrite Hty, (strtoul_digits d ds t rest Hds Ht).
  destruct (ULONG_MAX <? decimal (d :: ds)); reflexivity.
Qed.

(** X5. A hex value whose length is neither twice the required length nor
    one more is refused, whatever the decoder is, and the record is left
    as it was. *)
Theorem parse_value_hex_wrong_length (val : list Z) (len : nat)
    (f : asignify_privkey_parser) (privk : asignify_private_key) :
  field_type f = PRIVKEY_FIELD_HEX ->
  len <> (2 * required_len f)%nat -> len <> (2 * required_len f + 1)%nat ->
  asignify_private_data_parse_value val len f privk = (false, privk).
Proof.
  intros Hty H0 H1. now apply parse_value_hex_length.
Qed.

Lemma cstr_poke_nul (buf : list Z) : cstr (poke buf 0 NUL) = [].
Proof.
  destruct buf; reflexivity.
Qed.

(** X6. A record whose key derivation name was set by the text conversion
    is never of the encrypted shape, whatever the name on the line was: the
    string stored is empty and the supported name is not.  The sanity check
    takes such a record for an unencrypted key. *)
Theorem converted_kdf_is_never_supported (val : list Z) (len : nat)
    (f : asignify_privkey_parser) (privk : asignify_private_key) :
  cstr PBKDF_ALG <> [] ->
  In f parser_fields -> field_type f = PRIVKEY_FIELD_STRING ->
  let after := snd (asignify_private_data_parse_value val len f privk) in
  pbkdf_alg after <> None /\
  ~ encrypted_shape after /\
  asignify_private_key_is_sane after
  = (version privk =? 1) && is_set (id privk)
    && is_set (encrypted_blob privk).
Proof.
  intros Halg Hin Hty.
  assert (Hoff : struct_offset f = OFFSET_pbkdf_alg).
  { unfold parser_fields in Hin. cbn [In] in Hin.
    repeat (destruct Hin as [<- | Hin]; [first [discriminate|reflexivity]|]).
    contradiction. }
  unfold asignify_private_data_parse_value. rewrite Hty, Hoff. cbn [snd].
  set (buf := poke _ 0 NUL).
  assert (Hbuf : cstr buf = []) by apply cstr_poke_nul.
  assert (Hno : ~ matches_supported_kdf
                   (store_ptr OFFSET_pbkdf_alg (Some buf) privk)).
  { intros (alg & Heq & Hc). cbn in Heq. injection Heq as <-. congruence. }
  split; [discriminate|]. split.
  - intros (Hm & _). contradiction.
  - unfold asignify_private_key_is_sane. cbn [store_ptr pbkdf_alg].
    unfold strcmp_eq. rewrite Hbuf.
    destruct (cstr PBKDF_ALG) as [|c l]; [contradiction|].
    cbn [bytes_eqb version id encrypted_blob].
    destruct (version privk =? 1); [|reflexivity].
    destruct (is_set (id privk)), (is_set (encrypted_blob privk));
      reflexivity.
Qed.

(** ** What the unpacker returns *)

Lemma bytes_eqb_neq (a b : list Z) : a <> b -> bytes_eqb a b = false.
Proof.
  intros Hne. destruct (bytes_eqb a b) eqn:E; [|reflexivity].
  apply bytes_eqb_eq in E. contradiction.
Qed.

Lemma read_bytes_some (src : option (list Z)) (n : nat) (b : list Z) :
  read_bytes src n = Some b ->
  exists whole, src = Some whole /\ b = firstn n whole /\ length b = n.
Proof.
  unfold read_bytes. destruct src as [whole|]; [|discriminate].
  destruct (n <=? length whole)%nat eqn:E; [|discriminate].
  apply Nat.leb_le in E. intros [= <-]. exists whole.
  repeat split. rewrite length_firstn. lia.
Qed.

Lemma xor_bytes_length (a : list Z) :
  forall b, length a = length b -> length (xor_bytes a b) = length a.
Proof.
  induction a as [|x a IH]; intros [|y b] H; simpl in *; try lia.
  now rewrite IH by lia.
Qed.

(** The loop replaces the first [n] bytes of the blob by their exclusive or
    with the key and leaves what follows. *)
Lemma xor_loop_spec (n : nat) :
  forall pre kpre b k,
  length pre = length kpre -> (n <= length b)%nat -> (n <= length k)%nat ->
  xor_loop n (length pre) (pre ++ b) (kpre ++ k)
  = Some (pre ++ xor_bytes (firstn n b) (firstn n k) ++ skipn n b).
Proof.
  induction n as [|n IH]; intros pre kpre b k Hpre Hb Hk.
  - reflexivity.
  - destruct b as [|x b]; [simpl in Hb; lia|].
    destruct k as [|y k]; [simpl in Hk; lia|].
    simpl in Hb, Hk. cbn [xor_loop firstn skipn xor_bytes].
    rewrite nth_error_app2, Nat.sub_diag by lia. cbn [nth_error].
    rewrite nth_error_app2 by lia.
    rewrite Hpre, Nat.sub_diag. cbn [nth_error].
    rewrite <- Hpre.
    replace (length pre) with (length pre + 0)%nat at 2 by lia.
    rewrite poke_app_r. cbn [poke].
    replace (S (length pre)) with (length (pre ++ [Z.lxor x y]))
      by (rewrite length_app; simpl; lia).
    replace (pre ++ Z.lxor x y :: b) with ((pre ++ [Z.lxor x y]) ++ b)
      by (now rewrite <- app_assoc).
    replace (kpre ++ y :: k) with ((kpre ++ [y]) ++ k)
      by (now rewrite <- app_assoc).
    rewrite IH; [now rewrite <- app_assoc| |lia|lia].
    rewrite !length_app. simpl. lia.
Qed.

Lemma xor_loop_bounds (n : nat) :
  forall r blob xorkey blob',
  xor_loop n r blob xorkey = Some blob' ->
  n = 0%nat \/ (r + n <= length blob)%nat.
Proof.
  induction n as [|n IH]; intros r blob xorkey blob' H; [now left|right].
  cbn [xor_loop] in H.
  destruct (nth_error blob r) as [b|] eqn:Hb; [|discriminate].
  destruct (nth_error xorkey r) as [k|]; [|discriminate].
  assert (Hr : (r < length blob)%nat)
    by (apply nth_error_Some; congruence).
  apply IH in H. rewrite poke_length in H. lia.
Qed.

Lemma cleanup_and_return_some (ret : option asignify_private_data)
    (privk : asignify_private_key) (password xorkey : list Z)
    (path : exit_path) (out : unpack_out) :
  cleanup_and_return ret privk password xorkey path = Some out ->
  out_priv out = ret /\ out_path out = path /\ out_password out = password.
Proof.
  unfold cleanup_and_return.
  destruct (asignify_privkey_cleanup privk) as [[after released]|];
    [|discriminate].
  intros [= <-]. repeat split.
Qed.

Lemma copy_out_some (privk : asignify_private_key)
    (blob password xorkey : list Z) (path : exit_path) (out : unpack_out) :
  copy_out privk blob password xorkey path = Some out ->
  exists data key_id,
    read_bytes (Some blob) crypto_sign_SECRETKEYBYTES = Some data /\
    read_bytes (id privk) KEY_ID_LEN = Some key_id /\
    out_priv out
    = Some {| priv_data := data;
              priv_data_len := crypto_sign_SECRETKEYBYTES;
              priv_id := key_id; priv_id_len := KEY_ID_LEN |} /\
    out_path out = path.
Proof.
  unfold copy_out.
  destruct (read_bytes (Some blob) _) as [data|]; [|discriminate].
  destruct (explicit_memzero blob _) as [wiped|]; [|discriminate].
  destruct (read_bytes (id privk) KEY_ID_LEN) as [key_id|]; [|discriminate].
  intros H. apply cleanup_and_return_some in H as (Hret & Hpath & _).
  exists data, key_id. repeat split; assumption.
Qed.

(** X7. For a record without a key derivation name, with a blob and an id
    of their sizes, the unpacker returns the blob and the id as they are,
    whatever the callback is, and does not touch the array [password]. *)
Theorem unpack_key_plain_copies (privk : asignify_private_key)
    (password_cb : option asignify_password_cb)
    (canary password xorkey blob key_id : list Z) :
  pbkdf_alg privk = None ->
  encrypted_blob privk = Some blob ->
  length blob = crypto_sign_SECRETKEYBYTES ->
  id privk = Some key_id -> length key_id = KEY_ID_LEN ->
  length canary = 10%nat -> length password = 1024%nat ->
  length xorkey = crypto_sign_SECRETKEYBYTES ->
  exists out,
    asignify_private_data_unpack_key privk password_cb canary password xorkey
    = Some out /\
    out_priv out
    = Some {| priv_data := blob;
              priv_data_len := crypto_sign_SECRETKEYBYTES;
              priv_id := key_id; priv_id_len := KEY_ID_LEN |} /\
    out_password out = password.
Proof.
  intros Halg Hblob Hlen Hid Hidlen Hcanary Hpassword Hxorkey.
  unfold asignify_private_data_unpack_key.
  rewrite Hcanary, Hpassword, Hxorkey, !Nat.eqb_refl. cbn [negb andb].
  rewrite Halg, Hblob.
  rewrite (copy_out_spec privk blob password xorkey EXIT_PLAIN key_id Hlen)
    by (rewrite Hid; now apply read_bytes_whole).
  eexists. repeat split.
Qed.

(** X8. For a record with a key derivation name, the unpacker returns
    [NULL] when it gets no usable password: when there is no callback, when
    the callback returns a length that is not positive or that is above the
    1014 bytes it was offered, and when the ten canary bytes behind them
    changed.  The key derivation plays no part in it. *)
Theorem unpack_key_needs_password (privk : asignify_private_key)
    (password_cb : option asignify_password_cb)
    (canary password xorkey : list Z) :
  pbkdf_alg privk <> None ->
  (forall b, encrypted_blob privk = Some b ->
             length b = crypto_sign_SECRETKEYBYTES) ->
  length canary = 10%nat -> length password = 1024%nat ->
  length xorkey = crypto_sign_SECRETKEYBYTES ->
  match password_cb with
  | None => True
  | Some cb =>
      let answer := cb (firstn (1024 - 10) password ++ canary)
                       (1024 - 10)%nat in
      length (fst answer) = 1024%nat /\
      (snd answer <= 0 \/ 1024 - 10 < snd answer \/
       skipn (1024 - 10) (fst answer) <> canary)
  end ->
  exists out,
    asignify_private_data_unpack_key privk password_cb canary password xorkey
    = Some out /\
    out_priv out = None /\
    out_path out = match password_cb with
                   | None => EXIT_NO_CALLBACK
                   | Some _ => EXIT_CANARY
                   end.
Proof.
  intros Halg Hblob Hcanary Hpassword Hxorkey Hcb.
  unfold asignify_private_data_unpack_key.
  rewrite Hcanary, Hpassword, Hxorkey, !Nat.eqb_refl. cbn [negb andb].
  destruct (pbkdf_alg privk) as [alg|]; [|contradiction].
  destruct password_cb as [cb|].
  - destruct (cb _ _) as [buf r]. cbn [fst snd] in Hcb.
    destruct Hcb as [Hbuf Hbad].
    rewrite Hbuf, Nat.eqb_refl. cbn [negb].
    assert (Htest : (r <=? 0) || (1024 - 10 <? r)
                    || negb (bytes_eqb (skipn (1024 - 10) buf) canary)
                    = true).
    { destruct Hbad as [H | [H | H]].
      - apply Z.leb_le in H. now rewrite H.
      - apply Z.ltb_lt in H. rewrite H. now rewrite orb_true_r.
      - rewrite (bytes_eqb_neq _ _ H). cbn [negb]. now rewrite orb_true_r. }
    rewrite Htest, (explicit_memzero_zeros buf 1024 Hbuf).
    rewrite cleanup_and_return_spec by assumption.
    eexists. repeat split.
  - rewrite cleanup_and_return_spec by assumption.
    eexists. repeat split.
Qed.

(** X9. A secret that the unpacker returns for a record with a key
    derivation name was checked: the callback answered with a length
    between 1 and 1014 and left the canary as it was, the key was derived
    from the bytes it wrote, the salt and the rounds of the record, the
    data returned is the blob xor that key, and its digest is the checksum
    of the record. *)
Theorem unpack_key_returns_checked_secret (privk : asignify_private_key)
    (password_cb : option asignify_password_cb)
    (canary password xorkey : list Z) (out : unpack_out)
    (priv : asignify_private_data) :
  asignify_private_data_unpack_key privk password_cb canary password xorkey
  = Some out ->
  out_priv out = Some priv -> pbkdf_alg privk <> None ->
  exists cb buf r key_salt key blob,
    password_cb = Some cb /\
    cb (firstn (1024 - 10) password ++ canary) (1024 - 10)%nat = (buf, r) /\
    0 < r <= 1024 - 10 /\
    skipn (1024 - 10) buf = canary /\
    read_bytes (salt privk) SALT_LEN = Some key_salt /\
    pkcs5_pbkdf2 (firstn (Z.to_nat r) buf) key_salt
      crypto_sign_SECRETKEYBYTES (rounds privk) = Some key /\
    encrypted_blob privk = Some blob /\
    priv_data priv
    = xor_bytes (firstn crypto_sign_SECRETKEYBYTES blob) key /\
    read_bytes (checksum privk) BLAKE2B_OUTBYTES
    = Some (blake2b (priv_data priv) [] BLAKE2B_OUTBYTES).
Proof.
  intros H Hpriv Halg. unfold asignify_private_data_unpack_key in H.
  destruct (negb _) in H; [discriminate|].
  destruct (pbkdf_alg privk) as [alg|]; [clear Halg|contradiction].
  destruct password_cb as [cb|].
  2:{ apply cleanup_and_return_some in H as (Hret & _). congruence. }
  destruct (cb _ _) as [buf r] eqn:Hcb.
  destruct (negb (length buf =? 1024)%nat) eqn:Hbuf; [discriminate|].
  destruct ((r <=? 0) || (1024 - 10 <? r) || _) eqn:Htest in H.
  { destruct (explicit_memzero buf 1024); [|discriminate].
    apply cleanup_and_return_some in H as (Hret & _). congruence. }
  apply orb_false_iff in Htest as [Htest Hcan].
  apply orb_false_iff in Htest as [Hr0 Hr1].
  apply Z.leb_gt in Hr0. apply Z.ltb_ge in Hr1.
  apply negb_false_iff, bytes_eqb_eq in Hcan.
  destruct (read_bytes (salt privk) SALT_LEN) as [key_salt|] eqn:Hsalt;
    [|discriminate].
  destruct (pkcs5_pbkdf2 _ key_salt _ _) as [key|] eqn:Hkdf.
  2:{ destruct (explicit_memzero buf 1024); [|discriminate].
      apply cleanup_and_return_some in H as (Hret & _). congruence. }
  destruct (negb (length key =? _)%nat) eqn:Hkey; [discriminate|].
  apply negb_false_iff, Nat.eqb_eq in Hkey.
  destruct (explicit_memzero buf 1024); [|discriminate].
  destruct (encrypted_blob privk) as [blob|] eqn:Hblob; [|discriminate].
  destruct (xor_loop _ 0 blob key) as [blob1|] eqn:Hxor; [|discriminate].
  destruct (explicit_memzero key _); [|discriminate].
  destruct (negb (length (blake2b _ _ _) =? _)%nat); [discriminate|].
  destruct (read_bytes (checksum privk) _) as [sum|] eqn:Hsum;
    [|discriminate].
  destruct (negb (bytes_eqb _ sum)) eqn:Hdigest.
  { destruct (explicit_memzero blob1 _); [|discriminate].
    apply cleanup_and_return_some in H as (Hret & _). congruence. }
  apply negb_false_iff, bytes_eqb_eq in Hdigest.
  apply copy_out_some in H as (data & key_id & Hdata & _ & Hret & _).
  rewrite Hret in Hpriv. injection Hpriv as <-. cbn [priv_data].
  apply read_bytes_some in Hdata as (whole & [= <-] & -> & _).
  assert (Hlen : (crypto_sign_SECRETKEYBYTES <= length blob)%nat).
  { destruct (xor_loop_bounds _ _ _ _ _ Hxor) as [-> | Hle]; lia. }
  pose proof (xor_loop_spec crypto_sign_SECRETKEYBYTES [] [] blob key
                eq_refl Hlen) as Hspec.
  cbn [app length] in Hspec. rewrite Hspec in Hxor by lia.
  injection Hxor as <-.
  assert (Hfirst : firstn crypto_sign_SECRETKEYBYTES
                     (xor_bytes (firstn crypto_sign_SECRETKEYBYTES blob)
                                (firstn crypto_sign_SECRETKEYBYTES key)
                      ++ skipn crypto_sign_SECRETKEYBYTES blob)
                   = xor_bytes (firstn crypto_sign_SECRETKEYBYTES blob) key).
  { rewrite (firstn_all2 key) by lia.
    rewrite firstn_app.
    assert (Hx : length (xor_bytes (firstn crypto_sign_SECRETKEYBYTES blob)
                           key) = crypto_sign_SECRETKEYBYTES).
    { rewrite xor_bytes_length; rewrite length_firstn; lia. }
    rewrite Hx, Nat.sub_diag, firstn_O, app_nil_r.
    apply firstn_all2. lia. }
  rewrite Hfirst in *.
  exists cb, buf, r, key_salt, key, blob.
  repeat split; try assumption; try lia. now rewrite Hdigest.
Qed.

(** X10. A secret that the unpacker returns has data of
    [crypto_sign_SECRETKEYBYTES] bytes and an id of [KEY_ID_LEN] bytes, with
    the two length members saying so; [asignify_private_data_free] then
    hands the id to [free] and the data with every byte zeroed. *)
Theorem unpack_key_secret_is_wiped_by_free (privk : asignify_private_key)
    (password_cb : option asignify_password_cb)
    (canary password xorkey : list Z) (out : unpack_out)
    (priv : asignify_private_data) :
  asignify_private_data_unpack_key privk password_cb canary password xorkey
  = Some out ->
  out_priv out = Some priv ->
  length (priv_data priv) = crypto_sign_SECRETKEYBYTES /\
  priv_data_len priv = crypto_sign_SECRETKEYBYTES /\
  length (priv_id priv) = KEY_ID_LEN /\
  priv_id_len priv = KEY_ID_LEN /\
  asignify_private_data_free (Some priv)
  = Some [priv_id priv; zeros crypto_sign_SECRETKEYBYTES].
Proof.
  intros H Hpriv.
  assert (Hcopy : exists blob pw xk path,
             copy_out privk blob pw xk path = Some out).
  { unfold asignify_private_data_unpack_key in H.
    destruct (negb _) in H; [discriminate|].
    destruct (pbkdf_alg privk) as [alg|].
    - destruct password_cb as [cb|].
      2:{ apply cleanup_and_return_some in H as (Hret & _). congruence. }
      destruct (cb _ _) as [buf r].
      destruct (negb (length buf =? 1024)%nat); [discriminate|].
      destruct ((r <=? 0) || (1024 - 10 <? r) || _) in H.
      { destruct (explicit_memzero buf 1024); [|discriminate].
        apply cleanup_and_return_some in H as (Hret & _). congruence. }
      destruct (read_bytes (salt privk) SALT_LEN); [|discriminate].
      destruct (pkcs5_pbkdf2 _ _ _ _) as [key|].
      2:{ destruct (explicit_memzero buf 1024); [|discriminate].
          apply cleanup_and_return_some in H as (Hret & _). congruence. }
      destruct (negb (length key =? _)%nat); [discriminate|].
      destruct (explicit_memzero buf 1024); [|discriminate].
      destruct (encrypted_blob privk) as [blob|]; [|discriminate].
      destruct (xor_loop _ 0 blob key) as [blob1|]; [|discriminate].
      destruct (explicit_memzero key _); [|discriminate].
      destruct (negb (length (blake2b _ _ _) =? _)%nat); [discriminate|].
      destruct (read_bytes (checksum privk) _) as [sum|]; [|discriminate].
      destruct (negb (bytes_eqb _ sum)).
      { destruct (explicit_memzero blob1 _); [|discriminate].
        apply cleanup_and_return_some in H as (Hret & _). congruence. }
      now eauto.
    - destruct (encrypted_blob privk) as [blob|]; [|discriminate].
      now eauto. }
  destruct Hcopy as (blob & pw & xk & path & Hcopy).
  apply copy_out_some in Hcopy as (data & key_id & Hdata & Hid & Hret & _).
  rewrite Hret in Hpriv. injection Hpriv as <-.
  apply read_bytes_some in Hdata as (_ & _ & _ & Hdatalen).
  apply read_bytes_some in Hid as (_ & _ & _ & Hidlen).
  cbn [priv_data priv_data_len priv_id priv_id_len].
  repeat split; try assumption.
  unfold asignify_private_data_free. cbn [priv_data priv_data_len priv_id].
  now rewrite (explicit_memzero_zeros data _ Hdatalen).
Qed.

(** ** What the loaders return *)

(** X11. [asignify_private_data_load] returns [NULL] for every file, every
    callback and every state of its frame: the record it fills starts from
    zero, no line changes it, and a record with [version] [0] is not
    sane. *)
Theorem private_data_load_never_returns_key (f : list (list Z))
    (password_cb : option asignify_password_cb)
    (canary password xorkey : list Z) :
  asignify_private_data_load f password_cb canary password xorkey
  = Some None.
Proof.
  unfold asignify_private_data_load.
  destruct (load_lines_record f true zero_key eq_refl) as [-> | ->].
  - reflexivity.
  - cbn. reflexivity.
Qed.

(** X12. A container that [asignify_public_data_load] returns has the two
    lengths crossed over: its identifier has [data_len] bytes and its data
    [id_len] bytes, and the length members say the same. *)
Theorem public_data_load_crosses_lengths (buf magic : list Z)
    (magiclen : nat) (ver_min ver_max : Z) (id_len data_len : nat)
    (res : asignify_public_data) :
  asignify_public_data_load buf magic magiclen ver_min ver_max id_len data_len
  = Some (Some res) ->
  length (pub_id res) = data_len /\ pub_id_len res = data_len /\
  length (pub_data res) = id_len /\ pub_data_len res = id_len.
Proof.
  intros H. apply public_data_load_lengths in H.
  destruct H as (H1 & H2 & H3 & H4). repeat split; assumption.
Qed.

(** [strtoul] converts nothing when the first byte is neither white space,
    nor a sign, nor a digit. *)
Lemma strtoul_no_conversion (b : Z) (rest : list Z) :
  isspace b = false -> isdigit b = false -> b <> 43 -> b <> 45 ->
  strtoul ULONG_MAX (b :: rest) = (0, b :: rest, false).
Proof.
  intros Hsp Hd H43 H45. unfold strtoul. cbn [skip_spaces]. rewrite Hsp.
  assert (Hsign : match b :: rest with
                  | 45 :: t => (true, t)
                  | 43 :: t => (false, t)
                  | _ => (false, b :: rest)
                  end = (false, b :: rest)).
  { repeat match goal with
           | |- context [match ?x with _ => _ end] =>
               is_var x; destruct x
           end; try reflexivity; congruence. }
  rewrite Hsign. now rewrite Hd.
Qed.

Lemma skipn_nth_error {A : Type} (l : list A) :
  forall n x, nth_error l n = Some x -> exists rest, skipn n l = x :: rest.
Proof.
  induction l as [|a l IH]; intros [|n] x H; try discriminate.
  - injection H as <-. now exists l.
  - now apply IH.
Qed.

(** X13. The version is read from the last byte of the magic on.  When
    that byte is neither white space, nor a sign, nor a digit, no version is
    converted, and the buffer is accepted only if the byte is a colon and
    [0] is an accepted version: with a magic that ends in a colon and a
    lowest version of at least [1], every buffer is refused. *)
Theorem public_data_load_magic_tail (buf magic : list Z) (magiclen : nat)
    (ver_min ver_max : Z) (id_len data_len : nat) (b : Z) :
  (0 < magiclen)%nat ->
  nth_error magic (magiclen - 1) = Some b ->
  isspace b = false -> isdigit b = false -> b <> 43 -> b <> 45 ->
  b <> COLON \/ 0 < ver_min ->
  asignify_public_data_load buf magic magiclen ver_min ver_max id_len data_len
  = Some None.
Proof.
  intros Hpos Hb Hsp Hd H43 H45 Hrej. unfold asignify_public_data_load.
  destruct ((length buf <=? magiclen)%nat || _) eqn:Hfirst; [reflexivity|].
  apply orb_false_iff in Hfirst as [_ Hmagic].
  apply negb_false_iff in Hmagic. unfold memcmp_eq in Hmagic.
  apply andb_prop in Hmagic as [Hlens Heq].
  apply andb_prop in Hlens as [Hl1 Hl2].
  apply Nat.leb_le in Hl1, Hl2. apply bytes_eqb_eq in Heq.
  destruct magiclen as [|m]; [lia|].
  replace (S m - 1)%nat with m in * by lia.
  assert (Hbuf : nth_error buf m = Some b).
  { assert (Hft : forall l : list Z,
               nth_error (firstn (S m) l) m = nth_error l m).
    { intros l. rewrite nth_error_firstn.
      replace (m <? S m)%nat with true
        by (symmetry; apply Nat.ltb_lt; lia).
      reflexivity. }
    rewrite <- (Hft buf), Heq, Hft. exact Hb. }
  destruct (skipn_nth_error buf m b Hbuf) as [rest Hskip].
  rewrite Hskip, (strtoul_no_conversion b rest Hsp Hd H43 H45).
  cbn [hd]. change (to_uint 0) with 0.
  destruct Hrej as [Hcolon | Hmin].
  - apply Z.eqb_neq in Hcolon. now rewrite Hcolon.
  - apply Z.ltb_lt in Hmin. rewrite Hmin. now rewrite orb_true_r.
Qed.

End Databuf.

(** ** Concrete runs *)

(** Every return site of the unpacker is reached: without a callback, with a
    callback that runs over the canary, with a derivation that fails (no
    rounds), with a wrong password, with the right one, and for an
    unencrypted record. *)
Lemma unpack_key_exit_paths :
  let run privk cb :=
    option_map out_path
      (asignify_private_data_unpack_key 64 64 8 16 Sample.pkcs5_pbkdf2
         Sample.blake2b privk cb Sample.canary Sample.stack_password
         Sample.stack_xorkey) in
  run Sample.wrapped_key None = Some EXIT_NO_CALLBACK /\
  run Sample.wrapped_key (Some Sample.cb_overruns) = Some EXIT_CANARY /\
  run Sample.wrapped_key (Some Sample.cb_declines) = Some EXIT_CANARY /\
  run (store_uint OFFSET_rounds 0 Sample.wrapped_key)
      (Some (Sample.cb_writes Sample.pass)) = Some EXIT_DERIVATION /\
  run Sample.wrapped_key (Some (Sample.cb_writes (bytes "wrong")))
  = Some EXIT_CHECKSUM /\
  run Sample.wrapped_key (Some (Sample.cb_writes Sample.pass))
  = Some EXIT_UNPACKED /\
  run Sample.plain_key None = Some EXIT_PLAIN.
Proof.
  repeat split; vm_compute; reflexivity.
Qed.

(** The round trip on a wrapped secret of 64 bytes and its password. *)
Lemma unpack_key_roundtrip_witness :
  exists out,
    asignify_private_data_unpack_key 64 64 8 16 Sample.pkcs5_pbkdf2
      Sample.blake2b Sample.wrapped_key
      (Some (Sample.cb_writes Sample.pass)) Sample.canary
      Sample.stack_password Sample.stack_xorkey = Some out /\
    out_priv out
    = Some {| priv_data := Sample.secret; priv_data_len := 64;
              priv_id := Sample.key_id; priv_id_len := 8 |}.
Proof.
  apply (unpack_key_roundtrip 64 64 8 16 Sample.PBKDF_ALG 10000
           Sample.pkcs5_pbkdf2 Sample.blake2b Sample.wrapped_key
           (Sample.cb_writes Sample.pass) Sample.canary
           Sample.stack_password Sample.stack_xorkey
           Sample.pass Sample.secret Sample.derived_key Sample.key_salt
           Sample.key_id
           (fst (Sample.cb_writes Sample.pass
                   (firstn (1024 - 10) Sample.stack_password
                    ++ Sample.canary) (1024 - 10)%nat))
           13).
  - split.
    + exists (Sample.PBKDF_ALG ++ [NUL]). split; reflexivity.
    + repeat split; discriminate.
  - reflexivity.
  - reflexivity.
  - reflexivity.
  - reflexivity.
  - reflexivity.
  - reflexivity.
  - reflexivity.
  - reflexivity.
  - reflexivity.
  - reflexivity.
  - reflexivity.
  - reflexivity.
  - reflexivity.
  - vm_compute. reflexivity.
  - vm_compute. reflexivity.
  - lia.
  - vm_compute. reflexivity.
  - vm_compute. reflexivity.
Defined.

(** The wiping on the run with a wrong password, which ends at the
    checksum. *)
Lemma unpack_key_wipes_secrets_witness :
  exists out,
    asignify_private_data_unpack_key 64 64 8 16 Sample.pkcs5_pbkdf2
      Sample.blake2b Sample.wrapped_key
      (Some (Sample.cb_writes (bytes "wrong"))) Sample.canary
      Sample.stack_password Sample.stack_xorkey = Some out /\
    out_path out = EXIT_CHECKSUM /\
    out_priv out = None /\
    out_privk out = zero_key /\
    encrypted_blob (out_released out) = Some (zeros 64) /\
    out_password out = zeros 1024 /\
    out_xorkey out = zeros 64.
Proof.
  eexists. split; [vm_compute; reflexivity|].
  match goal with
  | |- out_path ?o = _ /\ _ =>
      pose proof (unpack_key_wipes_secrets 64 64 8 16 Sample.pkcs5_pbkdf2
                    Sample.blake2b Sample.wrapped_key
                    (Some (Sample.cb_writes (bytes "wrong"))) Sample.canary
                    Sample.stack_password Sample.stack_xorkey o) as H
  end.
  destruct H as (Hk & _ & _ & _ & _ & Hb & Hp & Hx & _).
  - intros b Hb. injection Hb as <-. reflexivity.
  - vm_compute. reflexivity.
  - repeat split; try reflexivity; assumption.
Defined.

(** A buffer that the loader accepts: it names version 1234 and comes
    back with version 1. *)
Lemma public_data_load_version_is_one_witness :
  asignify_public_data_load Sample.ULONG_MAX Sample.junk
    Sample.b64_pton_stop (bytes "X1234:QUJD") (bytes "X1") 2 1234 1234 3 3
  = Some (Some {| pub_version := 1; pub_data := [65; 66; 67];
                  pub_data_len := 3; pub_id := [215; 109; 248];
                  pub_id_len := 3 |}) /\
  pub_version {| pub_version := 1; pub_data := [65; 66; 67];
                 pub_data_len := 3; pub_id := [215; 109; 248];
                 pub_id_len := 3 |} = 1.
Proof.
  split; [vm_compute; reflexivity|].
  apply (public_data_load_version_is_one Sample.ULONG_MAX Sample.junk
           Sample.b64_pton_stop (bytes "X1234:QUJD") (bytes "X1") 2
           1234 1234 3 3).
  vm_compute. reflexivity.
Defined.

(** C3. An unencrypted key file, made of the magic line, a valid [id] line
    and a valid [data] line and no [kdf] line, is not loaded:
    [asignify_private_data_load] returns [NULL].  The [id] line by itself is
    refused by the line parser, and the record that holds the two decoded
    fields with [version] as [memset] left it is not sane. *)
Theorem load_plain_key_file_returns_null :
  asignify_private_data_load 64 64 8 16 Sample.PBKDF_ALG 10000
    Sample.PRIVKEY_MAGIC Sample.ULONG_MAX Sample.junk Sample.hex2bin
    Sample.pkcs5_pbkdf2 Sample.blake2b Sample.plain_key_file None
    Sample.canary Sample.stack_password Sample.stack_xorkey = Some None /\
  asignify_private_data_parse_line 64 64 8 16 Sample.ULONG_MAX Sample.junk
    Sample.hex2bin
    (Sample.getline_buffer (bytes "id: 0102030405060708" ++ [LF]) 120)
    zero_key = Some (false, zero_key) /\
  asignify_private_data_parse_line 64 64 8 16 Sample.ULONG_MAX Sample.junk
    Sample.hex2bin (bytes "id: 0102030405060708" ++ [LF])
    zero_key = Some (false, zero_key) /\
  asignify_private_key_is_sane Sample.PBKDF_ALG 10000
    {| version := 0; pbkdf_alg := None; rounds := 0; salt := None;
       id := Some Sample.key_id; encrypted_blob := Some Sample.secret;
       checksum := None |} = false.
Proof.
  repeat split; vm_compute; reflexivity.
Qed.

(** C4. The text conversion of the value of a [kdf] line succeeds, and the
    buffer it stores does not hold the value: its first byte is the NUL, so
    the string stored is empty, and the byte behind the copy is the one the
    allocation came with. *)
Theorem parse_value_kdf_stores_empty_string (ULONG_MAX : Z)
    (junk : nat -> Z) (hex2bin : nat -> list Z -> option (list Z)) :
  let kdf := {| field_name := bytes "kdf";
                field_type := PRIVKEY_FIELD_STRING;
                struct_offset := OFFSET_pbkdf_alg; required_len := 0 |} in
  let stored := NUL :: bytes "bkdf2-blake2" ++ [junk 13%nat] in
  bsearch (asignify_parser_fields_cmp (bytes "kdf: pbkdf2-blake2") 3)
    (parser_fields 64 64 8 16) = Some kdf /\
  asignify_private_data_parse_value ULONG_MAX junk hex2bin
    (bytes "pbkdf2-blake2" ++ [LF]) 13 kdf zero_key
  = (true, store_ptr OFFSET_pbkdf_alg (Some stored) zero_key) /\
  cstr stored = [] /\
  cstr stored <> bytes "pbkdf2-blake2".
Proof.
  repeat split; try reflexivity. discriminate.
Qed.

(** C5. A [rounds] line of decimal digits and a line terminator is
    refused, and nothing is stored.  In the value state, with the [rounds]
    field at hand, the turn of the loop that meets the line terminator
    goes to the error state: the terminator is not a digit. *)
Theorem parse_line_rounds_line_fails (ULONG_MAX : Z) (junk : nat -> Z)
    (hex2bin : nat -> list Z -> option (list Z)) :
  let rounds_field := {| field_name := bytes "rounds";
                         field_type := PRIVKEY_FIELD_UINT;
                         struct_offset := OFFSET_rounds;
                         required_len := 0 |} in
  let at_terminator :=
    {| lp := [LF]; lc := bytes "10000" ++ [LF]; state := PARSE_VALUE;
       next_state := PARSE_VALUE; parser := Some rounds_field;
       line_privk := zero_key |} in
  asignify_private_data_parse_line 64 64 8 16 ULONG_MAX junk hex2bin
    (bytes "rounds: 10000" ++ [LF]) zero_key = Some (false, zero_key) /\
  bsearch (asignify_parser_fields_cmp (bytes "rounds: 10000") 6)
    (parser_fields 64 64 8 16) = Some rounds_field /\
  parse_line_step 64 64 8 16 ULONG_MAX junk hex2bin LF [] at_terminator
  = inl (line_update at_terminator [LF] PARSE_ERROR).
Proof.
  repeat split; vm_compute; reflexivity.
Qed.

(** C6. A name that is a strict prefix of a registered name is found by
    the lookup: [i] gives the entry of [id] and [check] the entry of
    [checksum]; and the lines [i:] and [check:] are accepted by the line
    parser. *)
Theorem parse_line_accepts_name_prefix (ULONG_MAX : Z) (junk : nat -> Z)
    (hex2bin : nat -> list Z -> option (list Z)) :
  option_map field_name
    (bsearch (asignify_parser_fields_cmp (bytes "i:") 1)
       (parser_fields 64 64 8 16)) = Some (bytes "id") /\
  option_map field_name
    (bsearch (asignify_parser_fields_cmp (bytes "check:") 5)
       (parser_fields 64 64 8 16)) = Some (bytes "checksum") /\
  asignify_private_data_parse_line 64 64 8 16 ULONG_MAX junk hex2bin
    (bytes "i:" ++ [LF]) zero_key = Some (true, zero_key) /\
  asignify_private_data_parse_line 64 64 8 16 ULONG_MAX junk hex2bin
    (bytes "check:" ++ [LF]) zero_key = Some (true, zero_key).
Proof.
  repeat split; vm_compute; reflexivity.
Qed.





(** C9. The container [EdPK:1:<id>:<key>] with an id of 8 bytes and a key
    of 32 bytes is refused for the versions [1] to [1], whatever the base64
    decoder is and whether the magic is passed with its colon, without it,
    or with its terminating NUL counted.  What the function accepts has the
    two lengths crossed over: asked for an id of 4 bytes and data of 3
    bytes, it returns an id of 3 bytes, decoded from the version digits,
    and data of 4 bytes. *)
Theorem public_data_load_rejects_container (ULONG_MAX : Z)
    (junk : nat -> Z)
    (b64_pton_stop : list Z -> nat -> list Z -> option (list Z)) :
  let container :=
    bytes "EdPK:1:AQIDBAUGBwg=:AAAAAAAAAAAAAAAAAAAAAAAAAAAAAAAAAAAAAAAAAAA=" in
  asignify_public_data_load ULONG_MAX junk b64_pton_stop container
    (bytes "EdPK:") 5 1 1 8 32 = Some None /\
  asignify_public_data_load ULONG_MAX junk b64_pton_stop container
    (bytes "EdPK") 4 1 1 8 32 = Some None /\
  asignify_public_data_load ULONG_MAX junk b64_pton_stop container
    (bytes "EdPK:" ++ [NUL]) 6 1 1 8 32 = Some None /\
  asignify_public_data_load Sample.ULONG_MAX Sample.junk
    Sample.b64_pton_stop (bytes "X1234:QUJDRA") (bytes "X1") 2 1234 1234 4 3
  = Some (Some {| pub_version := 1; pub_data := [65; 66; 67; 68];
                  pub_data_len := 4; pub_id := [215; 109; 248];
                  pub_id_len := 3 |}).
Proof.
  repeat split; vm_compute; reflexivity.
Qed.

(** ** Concrete runs of the further properties *)

(** The name [id] of the line [id: 01] is found. *)
Lemma lookup_finds_prefixes_witness :
  let id_field := {| field_name := bytes "id";
                     field_type := PRIVKEY_FIELD_HEX;
                     struct_offset := OFFSET_id; required_len := 8 |} in
  bsearch (asignify_parser_fields_cmp (bytes "id: 01") 2)
    (parser_fields 64 64 8 16) = Some id_field <->
  In id_field (parser_fields 64 64 8 16) /\
  (2 <= length (field_name id_field))%nat /\
  firstn 2 (bytes "id: 01") = firstn 2 (field_name id_field).
Proof.
  apply (lookup_finds_prefixes 64 64 8 16 (bytes "id: 01") 2).
  - vm_compute. lia.
  - cbv. repeat constructor; discriminate.
Defined.

(** The digits of [2 ^ 32 + 10000] are stored as [10000]. *)
Lemma parse_value_uint_wraps_witness :
  let rounds_field := {| field_name := bytes "rounds";
                         field_type := PRIVKEY_FIELD_UINT;
                         struct_offset := OFFSET_rounds;
                         required_len := 0 |} in
  asignify_private_data_parse_value Sample.ULONG_MAX Sample.junk
    Sample.hex2bin (bytes "4294977296" ++ [LF]) 10 rounds_field zero_key
  = (true, store_uint OFFSET_rounds 10000 zero_key).
Proof.
  exact (parse_value_uint_wraps Sample.ULONG_MAX Sample.junk Sample.hex2bin
           52 (bytes "294977296") LF [] 10
           {| field_name := bytes "rounds";
              field_type := PRIVKEY_FIELD_UINT;
              struct_offset := OFFSET_rounds; required_len := 0 |}
           zero_key eq_refl
           ltac:(cbv; repeat constructor) eq_refl).
Defined.

(** An id of three characters is refused. *)
Lemma parse_value_hex_wrong_length_witness :
  asignify_private_data_parse_value Sample.ULONG_MAX Sample.junk
    Sample.hex2bin (bytes "012" ++ [LF]) 3
    {| field_name := bytes "id"; field_type := PRIVKEY_FIELD_HEX;
       struct_offset := OFFSET_id; required_len := 8 |} zero_key
  = (false, zero_key).
Proof.
  apply (parse_value_hex_wrong_length Sample.ULONG_MAX Sample.junk
           Sample.hex2bin).
  - reflexivity.
  - cbn. lia.
  - cbn. lia.
Defined.

(** The record after the conversion of [kdf: pbkdf2-blake2]. *)
Lemma converted_kdf_is_never_supported_witness :
  let kdf := {| field_name := bytes "kdf";
                field_type := PRIVKEY_FIELD_STRING;
                struct_offset := OFFSET_pbkdf_alg; required_len := 0 |} in
  let after :=
    snd (asignify_private_data_parse_value Sample.ULONG_MAX Sample.junk
           Sample.hex2bin (bytes "pbkdf2-blake2" ++ [LF]) 13 kdf
           Sample.plain_key) in
  pbkdf_alg after <> None /\
  ~ encrypted_shape Sample.PBKDF_ALG 10000 after /\
  asignify_private_key_is_sane Sample.PBKDF_ALG 10000 after
  = (version Sample.plain_key =? 1) && is_set (id Sample.plain_key)
    && is_set (encrypted_blob Sample.plain_key).
Proof.
  apply (converted_kdf_is_never_supported 64 64 8 16 Sample.PBKDF_ALG 10000
           Sample.ULONG_MAX Sample.junk Sample.hex2bin).
  - vm_compute. discriminate.
  - cbn. right. right. right. left. reflexivity.
  - reflexivity.
Defined.

(** The unencrypted record, with a callback that is not asked. *)
Lemma unpack_key_plain_copies_witness :
  exists out,
    asignify_private_data_unpack_key 64 64 8 16 Sample.pkcs5_pbkdf2
      Sample.blake2b Sample.plain_key (Some Sample.cb_overruns)
      Sample.canary Sample.stack_password Sample.stack_xorkey = Some out /\
    out_priv out
    = Some {| priv_data := Sample.secret; priv_data_len := 64;
              priv_id := Sample.key_id; priv_id_len := 8 |} /\
    out_password out = Sample.stack_password.
Proof.
  apply (unpack_key_plain_copies 64 64 8 16 Sample.pkcs5_pbkdf2
           Sample.blake2b Sample.plain_key (Some Sample.cb_overruns)
           Sample.canary Sample.stack_password Sample.stack_xorkey
           Sample.secret Sample.key_id); reflexivity.
Defined.

(** The wrapped record, with a callback that runs over the canary. *)
Lemma unpack_key_needs_password_witness :
  exists out,
    asignify_private_data_unpack_key 64 64 8 16 Sample.pkcs5_pbkdf2
      Sample.blake2b Sample.wrapped_key (Some Sample.cb_overruns)
      Sample.canary Sample.stack_password Sample.stack_xorkey = Some out /\
    out_priv out = None /\
    out_path out = EXIT_CANARY.
Proof.
  apply (unpack_key_needs_password 64 64 8 16 Sample.pkcs5_pbkdf2
           Sample.blake2b Sample.wrapped_key (Some Sample.cb_overruns)
           Sample.canary Sample.stack_password Sample.stack_xorkey).
  - discriminate.
  - intros b Hb. injection Hb as <-. reflexivity.
  - reflexivity.
  - reflexivity.
  - reflexivity.
  - split; [vm_compute; reflexivity|].
    right. right. vm_compute. discriminate.
Defined.

(** The wrapped record, unpacked with its password. *)
Lemma unpack_key_returns_checked_secret_witness :
  exists out priv,
    asignify_private_data_unpack_key 64 64 8 16 Sample.pkcs5_pbkdf2
      Sample.blake2b Sample.wrapped_key
      (Some (Sample.cb_writes Sample.pass)) Sample.canary
      Sample.stack_password Sample.stack_xorkey = Some out /\
    out_priv out = Some priv /\
    exists cb buf r key_salt key blob,
      Some (Sample.cb_writes Sample.pass) = Some cb /\
      cb (firstn (1024 - 10) Sample.stack_password ++ Sample.canary)
         (1024 - 10)%nat = (buf, r) /\
      0 < r <= 1024 - 10 /\
      skipn (1024 - 10) buf = Sample.canary /\
      read_bytes (salt Sample.wrapped_key) 16 = Some key_salt /\
      Sample.pkcs5_pbkdf2 (firstn (Z.to_nat r) buf) key_salt 64
        (rounds Sample.wrapped_key) = Some key /\
      encrypted_blob Sample.wrapped_key = Some blob /\
      priv_data priv = xor_bytes (firstn 64 blob) key /\
      read_bytes (checksum Sample.wrapped_key) 64
      = Some (Sample.blake2b (priv_data priv) [] 64).
Proof.
  eexists. eexists. split; [vm_compute; reflexivity|].
  split; [reflexivity|].
  eapply (unpack_key_returns_checked_secret 64 64 8 16 Sample.pkcs5_pbkdf2
            Sample.blake2b Sample.wrapped_key
            (Some (Sample.cb_writes Sample.pass)) Sample.canary
            Sample.stack_password Sample.stack_xorkey).
  - vm_compute. reflexivity.
  - reflexivity.
  - discriminate.
Defined.

(** The secret unpacked from the wrapped record, and its release. *)
Lemma unpack_key_secret_is_wiped_by_free_witness :
  exists out priv,
    asignify_private_data_unpack_key 64 64 8 16 Sample.pkcs5_pbkdf2
      Sample.blake2b Sample.wrapped_key
      (Some (Sample.cb_writes Sample.pass)) Sample.canary
      Sample.stack_password Sample.stack_xorkey = Some out /\
    out_priv out = Some priv /\
    length (priv_data priv) = 64%nat /\
    priv_data_len priv = 64%nat /\
    length (priv_id priv) = 8%nat /\
    priv_id_len priv = 8%nat /\
    asignify_private_data_free (Some priv)
    = Some [priv_id priv; zeros 64].
Proof.
  eexists. eexists. split; [vm_compute; reflexivity|].
  split; [reflexivity|].
  eapply (unpack_key_secret_is_wiped_by_free 64 64 8 16 Sample.pkcs5_pbkdf2
            Sample.blake2b Sample.wrapped_key
            (Some (Sample.cb_writes Sample.pass)) Sample.canary
            Sample.stack_password Sample.stack_xorkey).
  - vm_compute. reflexivity.
  - reflexivity.
Defined.

(** A buffer accepted with an id asked of 4 bytes and data of 3. *)
Lemma public_data_load_crosses_lengths_witness :
  exists res,
    asignify_public_data_load Sample.ULONG_MAX Sample.junk
      Sample.b64_pton_stop (bytes "X1234:QUJDRA") (bytes "X1") 2 1234 1234
      4 3 = Some (Some res) /\
    length (pub_id res) = 3%nat /\ pub_id_len res = 3%nat /\
    length (pub_data res) = 4%nat /\ pub_data_len res = 4%nat.
Proof.
  eexists. split; [vm_compute; reflexivity|].
  eapply (public_data_load_crosses_lengths Sample.ULONG_MAX Sample.junk
            Sample.b64_pton_stop (bytes "X1234:QUJDRA") (bytes "X1") 2
            1234 1234 4 3).
  vm_compute. reflexivity.
Defined.

(** The magic [EdPK:] with the versions from [1]. *)
Lemma public_data_load_magic_tail_witness :
  asignify_public_data_load Sample.ULONG_MAX Sample.junk
    Sample.b64_pton_stop (bytes "EdPK:1:AQIDBAUGBwg=:AAAA") (bytes "EdPK:")
    5 1 1 8 3 = Some None.
Proof.
  apply (public_data_load_magic_tail Sample.ULONG_MAX Sample.junk
           Sample.b64_pton_stop (bytes "EdPK:1:AQIDBAUGBwg=:AAAA")
           (bytes "EdPK:") 5 1 1 8 3 COLON).
  - lia.
  - reflexivity.
  - reflexivity.
  - reflexivity.
  - discriminate.
  - discriminate.
  - right. lia.
Defined.
